(** * The output transport of pipecat: [BaseOutputTransport]

    A shallow embedding of [src/pipecat/transports/base_output.py].

    The transport is driven from four sides: the upstream processor calls
    [process_frame] on the event loop, a sink worker thread runs
    [_sink_thread_handler], a camera worker thread runs
    [_camera_out_thread_handler], and an asyncio task runs
    [_push_frame_task_handler].  The embedding keeps one state record for
    the object and gives every side its own step functions; a schedule is
    a list of such steps.  The worker loops are cut at the point where they
    block ([Queue.get]), so that a worker holding a dequeued item is a
    state of its own. *)

From Stdlib Require Import List Arith Lia Bool.
From Stdlib Require Init.Byte Strings.String.
Import ListNotations String.StringSyntax.

Abbreviation string := String.string.
Open Scope string_scope.
Open Scope list_scope.

Set Implicit Arguments.

(** ** Frames *)

Definition bytes := list Byte.byte.

Inductive FrameDirection := DOWNSTREAM | UPSTREAM.

(** [ImageRawFrame(image, size, format)].  [format] is [None] for a frame
    built from an image that was not read from a file. *)
Record ImageRawFrame := mkImageRawFrame {
  image : bytes;
  size : nat * nat;
  format : option string
}.

(** Modelled from the spec: the module [pipecat.frames.frames], which
    declares the frame classes, is not part of the sources at hand.  The
    kinds are those of the spec's data model, under the names of the classes
    that [base_output.py] imports; [OtherFrame] stands for every class the
    transport does not test for (a [TextFrame], say). *)
Inductive Frame :=
| StartFrame
| CancelFrame
| EndFrame
| StartInterruptionFrame
| StopInterruptionFrame
| SystemFrame (payload : string)
| AudioRawFrame (audio : bytes) (sample_rate num_channels : nat)
| ImageFrame (img : ImageRawFrame)
| SpriteFrame (images : list ImageRawFrame)
| TransportMessageFrame (message : string)
| MetricsFrame (payload : string)
| OtherFrame (payload : string).

Definition is_EndFrame (f : Frame) : bool :=
  match f with EndFrame => true | _ => false end.

Definition is_CancelFrame (f : Frame) : bool :=
  match f with CancelFrame => true | _ => false end.

(** ** Configuration *)

Record TransportParams := mkTransportParams {
  audio_out_enabled : bool;
  audio_out_sample_rate : nat;
  audio_out_channels : nat;
  camera_out_enabled : bool;
  camera_out_is_live : bool;
  camera_out_width : nat;
  camera_out_height : nat;
  camera_out_framerate : nat
}.

(** [int(sample_rate / 100) * channels * 2], ten milliseconds of audio. *)
Definition audio_chunk_size (p : TransportParams) : nat :=
  (audio_out_sample_rate p / 100) * audio_out_channels p * 2.

(** ** Python's [range] and slices *)

Inductive Exn := ValueError | CollaboratorError.

Fixpoint range_from (fuel i stop step : nat) : list nat :=
  match fuel with
  | 0 => []
  | S fuel' =>
      if i <? stop then i :: range_from fuel' (i + step) stop step else []
  end.

(** [range(start, stop, step)] for a non-negative step: a zero step raises
    [ValueError]; otherwise at most [stop] indices lie below [stop]. *)
Definition py_range (start stop step : nat) : Exn + list nat :=
  if step =? 0 then inl ValueError
  else inr (range_from stop start stop step).

(** [s[i:j]] *)
Definition slice {A} (s : list A) (i j : nat) : list A :=
  firstn (j - i) (skipn i s).

(** The chunks cut by the loop of [_handle_audio]. *)
Definition audio_chunks (chunk_size : nat) (audio : bytes)
    (sample_rate num_channels : nat) (idx : list nat) : list Frame :=
  map (fun i => AudioRawFrame (slice audio i (i + chunk_size))
                              sample_rate num_channels) idx.

(** ** Collaborators

    [write_raw_audio_frames], [write_frame_to_camera], [send_message] and
    [send_metrics] are empty in the base class and overridden by the
    concrete transports.  A call acts on the device behind the transport
    and may raise an exception of the class [Exception], which is [None]
    here.  What is raised outside that class ([KeyboardInterrupt],
    [SystemExit]) is not the failure of a write and is not modelled. *)
Class Collaborators (Dev : Type) := {
  write_raw_audio_frames : bytes -> Dev -> option Dev;
  write_frame_to_camera : ImageRawFrame -> Dev -> option Dev;
  send_message : Frame -> Dev -> option Dev;
  send_metrics : Frame -> Dev -> option Dev
}.

(** The methods as the base class defines them: [pass]. *)
#[export] Instance base_collaborators : Collaborators unit := {|
  write_raw_audio_frames := fun _ d => Some d;
  write_frame_to_camera := fun _ d => Some d;
  send_message := fun _ d => Some d;
  send_metrics := fun _ d => Some d
|}.

(** The part of PIL that [_draw_image] uses.  [Image.frombytes] and
    [Image.resize] raise on data or sizes they do not accept; an image
    returned by [resize] has the size that was asked for. *)
Class Imaging (PILImage : Type) := {
  Image_frombytes : option string -> nat * nat -> bytes -> option PILImage;
  Image_resize : PILImage -> nat * nat -> option PILImage;
  Image_tobytes : PILImage -> bytes;
  Image_size : PILImage -> nat * nat;
  Image_format : PILImage -> option string;
  Image_resize_size : forall im sz im',
    Image_resize im sz = Some im' -> Image_size im' = sz
}.

(** ** What the transport does to the outside, in the order it does it *)

Inductive Event :=
| EvPushFrame (f : Frame) (d : FrameDirection)
| EvWriteAudio (chunk : bytes)
| EvWriteCamera (f : ImageRawFrame)
| EvSendMessage (f : Frame)
| EvSendMetrics (f : Frame)
| EvResize (from to : nat * nat)
| EvLogWarning (msg : string)
| EvLogError (msg : string).

(** The frames handed to [push_frame], oldest first. *)
Fixpoint pushed (t : list Event) : list (Frame * FrameDirection) :=
  match t with
  | [] => []
  | EvPushFrame f d :: t' => (f, d) :: pushed t'
  | _ :: t' => pushed t'
  end.

(** ** State *)

(** Where a worker thread stands in its loop. *)
Inductive SinkThread :=
| SinkNotStarted
| SinkAtLoop
| SinkGot (frame : Frame)
| SinkExited.

Inductive CameraThread :=
| CamNotStarted
| CamAtLoop
| CamGot (img : ImageRawFrame)
| CamExited.

(** [itertools.cycle]: the saved items and the position of the next one. *)
Record Cycle := mkCycle {
  saved : list ImageRawFrame;
  pos : nat
}.

Record State (Dev : Type) := mkState {
  running : bool;
  stopped_event : bool;
  is_interrupted : bool;
  (* property of the base class [FrameProcessor], only read here *)
  interruptions_allowed : bool;
  sink_queue : list Frame;
  push_queue : list (Frame * FrameDirection);
  camera_out_queue : list ImageRawFrame;
  camera_images : option Cycle;
  sink_thread : SinkThread;
  (* the local [buffer] of the sink worker *)
  buffer : bytes;
  camera_thread : CameraThread;
  dev : Dev;
  trace : list Event
}.

(** Outcome of a method that may raise: the state is the one reached when
    the exception leaves the method. *)
Inductive Result (S : Type) :=
| Ok (st : S)
| Raised (e : Exn) (st : S).

Arguments Ok {S} st.
Arguments Raised {S} e st.

(** Outcome of [process_frame]: it returns, it raises, or it is suspended
    in [await self._stopped_event.wait()]. *)
Inductive Outcome (S : Type) :=
| Returned (st : S)
| Waiting (st : S)
| Failed (e : Exn) (st : S).

Arguments Returned {S} st.
Arguments Waiting {S} st.
Arguments Failed {S} e st.

Definition state_of {S} (o : Outcome S) : S :=
  match o with Returned st | Waiting st | Failed _ st => st end.

(** Field updates. *)
Section Update.
Context {Dev : Type}.
Implicit Type st : State Dev.

Definition set_running v st :=
  mkState v (stopped_event st) (is_interrupted st) (interruptions_allowed
    st) (sink_queue st) (push_queue st) (camera_out_queue st)
    (camera_images st) (sink_thread st) (buffer st) (camera_thread st)
    (dev st) (trace st).
Definition set_stopped_event v st :=
  mkState (running st) v (is_interrupted st) (interruptions_allowed st)
    (sink_queue st) (push_queue st) (camera_out_queue st) (camera_images
    st) (sink_thread st) (buffer st) (camera_thread st) (dev st) (trace
    st).
Definition set_is_interrupted v st :=
  mkState (running st) (stopped_event st) v (interruptions_allowed st)
    (sink_queue st) (push_queue st) (camera_out_queue st) (camera_images
    st) (sink_thread st) (buffer st) (camera_thread st) (dev st) (trace
    st).
Definition set_sink_queue v st :=
  mkState (running st) (stopped_event st) (is_interrupted st)
    (interruptions_allowed st) v (push_queue st) (camera_out_queue st)
    (camera_images st) (sink_thread st) (buffer st) (camera_thread st)
    (dev st) (trace st).
Definition set_push_queue v st :=
  mkState (running st) (stopped_event st) (is_interrupted st)
    (interruptions_allowed st) (sink_queue st) v (camera_out_queue st)
    (camera_images st) (sink_thread st) (buffer st) (camera_thread st)
    (dev st) (trace st).
Definition set_camera_out_queue v st :=
  mkState (running st) (stopped_event st) (is_interrupted st)
    (interruptions_allowed st) (sink_queue st) (push_queue st) v
    (camera_images st) (sink_thread st) (buffer st) (camera_thread st)
    (dev st) (trace st).
Definition set_camera_images v st :=
  mkState (running st) (stopped_event st) (is_interrupted st)
    (interruptions_allowed st) (sink_queue st) (push_queue st)
    (camera_out_queue st) v (sink_thread st) (buffer st) (camera_thread
    st) (dev st) (trace st).
Definition set_sink_thread v st :=
  mkState (running st) (stopped_event st) (is_interrupted st)
    (interruptions_allowed st) (sink_queue st) (push_queue st)
    (camera_out_queue st) (camera_images st) v (buffer st) (camera_thread
    st) (dev st) (trace st).
Definition set_buffer v st :=
  mkState (running st) (stopped_event st) (is_interrupted st)
    (interruptions_allowed st) (sink_queue st) (push_queue st)
    (camera_out_queue st) (camera_images st) (sink_thread st) v
    (camera_thread st) (dev st) (trace st).
Definition set_camera_thread v st :=
  mkState (running st) (stopped_event st) (is_interrupted st)
    (interruptions_allowed st) (sink_queue st) (push_queue st)
    (camera_out_queue st) (camera_images st) (sink_thread st) (buffer st)
    v (dev st) (trace st).
Definition set_dev (v : Dev) st :=
  mkState (running st) (stopped_event st) (is_interrupted st)
    (interruptions_allowed st) (sink_queue st) (push_queue st)
    (camera_out_queue st) (camera_images st) (sink_thread st) (buffer st)
    (camera_thread st) v (trace st).

(** Appends events to the trace. *)
Definition emit (es : list Event) st :=
  mkState (running st) (stopped_event st) (is_interrupted st)
    (interruptions_allowed st) (sink_queue st) (push_queue st)
    (camera_out_queue st) (camera_images st) (sink_thread st) (buffer st)
    (camera_thread st) (dev st) (trace st ++ es).
End Update.

(** ** The transport *)

Section Transport.
Context {Dev : Type} {collab : Collaborators Dev}.
Context {PILImage : Type} {imaging : Imaging PILImage}.
Variable params : TransportParams.

Abbreviation St := (State Dev).
Implicit Type st : St.

Definition _audio_chunk_size : nat := audio_chunk_size params.

(** [__init__]: nothing runs, the queues are empty, and the first push
    task waits on the first push queue.  [allow] is what the base class
    answers for [interruptions_allowed]. *)
Definition init (allow : bool) (d : Dev) : St :=
  mkState false false false allow [] [] [] None
          SinkNotStarted [] CamNotStarted d [].

(** [push_frame] of the base class hands the frame to the neighbour
    processor; here it is recorded. *)
Definition push_frame (frame : Frame) (direction : FrameDirection) st : St :=
  emit [EvPushFrame frame direction] st.

(** A call of a collaborator: recorded when made, then it returns or
    raises. *)
Definition call (ev : Event) (op : Dev -> option Dev) st : Result St :=
  let st := emit [ev] st in
  match op (dev st) with
  | Some d => Ok (set_dev d st)
  | None => Raised CollaboratorError st
  end.

(** [run_in_executor] of a worker.  A worker of an earlier [start] that
    has not yet seen the flag down goes on with the flag up again, beside
    the one that [start] submits; the model has one worker of each kind
    and keeps that one and its buffer. *)
Definition spawn_sink st : St :=
  match sink_thread st with
  | SinkNotStarted | SinkExited => set_buffer [] (set_sink_thread SinkAtLoop st)
  | _ => st
  end.

Definition spawn_camera st : St :=
  match camera_thread st with
  | CamNotStarted | CamExited => set_camera_thread CamAtLoop st
  | _ => st
  end.

Definition start st : St :=
  if running st then st
  else
    let st := set_running true st in
    let st := if camera_out_enabled params then spawn_camera st else st in
    spawn_sink st.

Definition stop st : St :=
  if negb (running st) then st
  else set_stopped_event true (set_running false st).

(** *** Push frames task *)

(** The new task reads the new queue; the cancelled one is left with the
    old queue, which nothing refers to any more. *)
Definition _create_push_task st : St := set_push_queue [] st.

Definition _internal_push_frame (frame : Frame) (direction : FrameDirection)
    st : St :=
  set_push_queue (push_queue st ++ [(frame, direction)]) st.

(** One turn of the loop of [_push_frame_task_handler]; on an empty queue
    the task stays suspended in [get]. *)
Definition push_task_step st : St :=
  match push_queue st with
  | [] => st
  | (frame, direction) :: q => push_frame frame direction (set_push_queue q st)
  end.

(** *** Interruptions and audio *)

Definition _handle_interruptions (frame : Frame) st : St :=
  if negb (interruptions_allowed st) then st
  else
    match frame with
    | StartInterruptionFrame => _create_push_task (set_is_interrupted true st)
    | StopInterruptionFrame => set_is_interrupted false st
    | _ => st
    end.

Definition sink_put (frame : Frame) st : St :=
  set_sink_queue (sink_queue st ++ [frame]) st.

Definition _handle_audio (audio : bytes) (sample_rate num_channels : nat)
    st : Result St :=
  match py_range 0 (length audio) _audio_chunk_size with
  | inl e => Raised e st
  | inr idx =>
      Ok (fold_left (fun st chunk => sink_put chunk st)
            (audio_chunks _audio_chunk_size audio sample_rate num_channels idx)
            st)
  end.

(** *** Frame processor *)

(** [super().process_frame] keeps the books of the base class and touches
    nothing of this state. *)
Definition process_frame (frame : Frame) (direction : FrameDirection)
    st : Outcome St :=
  let r :=
    match frame with
    | StartFrame => Ok (push_frame frame direction (start st))
    | CancelFrame => Ok (push_frame frame direction (stop st))
    | StartInterruptionFrame | StopInterruptionFrame =>
        Ok (push_frame frame direction (_handle_interruptions frame st))
    | SystemFrame _ => Ok (push_frame frame direction st)
    | AudioRawFrame audio sample_rate num_channels =>
        _handle_audio audio sample_rate num_channels st
    | _ => Ok (sink_put frame st)
    end in
  match r with
  | Raised e st' => Failed e st'
  | Ok st' =>
      if is_CancelFrame frame || is_EndFrame frame then
        if stopped_event st' then Returned st' else Waiting st'
      else Returned st'
  end.

(** *** Audio out *)

Definition _maybe_send_audio (buf : bytes) st : bytes * St :=
  if _audio_chunk_size <=? length buf then
    let chunk := firstn _audio_chunk_size buf in
    match call (EvWriteAudio chunk) (write_raw_audio_frames chunk) st with
    | Ok st' => (skipn _audio_chunk_size buf, st')
    | Raised _ st' =>
        (buf, emit [EvLogError "Error writing audio frames"] st')
    end
  else (buf, st).

(** *** Camera out *)

Definition cycle_next (c : Cycle) : option (ImageRawFrame * Cycle) :=
  match nth_error (saved c) (pos c) with
  | Some x =>
      Some (x, mkCycle (saved c)
                 (if S (pos c) <? length (saved c) then S (pos c) else 0))
  | None => None
  end.

Definition _set_camera_image (img : ImageRawFrame) st : St :=
  if camera_out_is_live params
  then set_camera_out_queue (camera_out_queue st ++ [img]) st
  else set_camera_images (Some (mkCycle [img] 0)) st.

Definition _set_camera_images (images : list ImageRawFrame) st : St :=
  set_camera_images (Some (mkCycle images 0)) st.

Definition size_eqb (a b : nat * nat) : bool :=
  (fst a =? fst b) && (snd a =? snd b).

Definition _draw_image (frame : ImageRawFrame) st : Result St :=
  let desired_size := (camera_out_width params, camera_out_height params) in
  if size_eqb (size frame) desired_size then
    call (EvWriteCamera frame) (write_frame_to_camera frame) st
  else
    match Image_frombytes (format frame) (size frame) (image frame) with
    | None => Raised ValueError st
    | Some image =>
        let st := emit [EvResize (size frame) desired_size] st in
        match Image_resize image desired_size with
        | None => Raised ValueError st
        | Some resized_image =>
            let st := emit [EvLogWarning "does not have the expected size, resizing"] st in
            let frame := mkImageRawFrame (Image_tobytes resized_image)
                           (Image_size resized_image)
                           (Image_format resized_image) in
            call (EvWriteCamera frame) (write_frame_to_camera frame) st
        end
    end.

(** The camera worker at [while self._running]: it leaves, or it takes the
    next image (live queue or cycle), or it finds none and comes back. *)
Definition camera_thread_get st : St :=
  match camera_thread st with
  | CamAtLoop =>
      if running st then
        if camera_out_is_live params then
          match camera_out_queue st with
          | [] => st
          | img :: q => set_camera_thread (CamGot img) (set_camera_out_queue q st)
          end
        else
          match camera_images st with
          | Some c =>
              match cycle_next c with
              | Some (img, c') =>
                  set_camera_thread (CamGot img) (set_camera_images (Some c') st)
              | None => emit [EvLogError "Error writing to camera"] st
              end
          | None => st
          end
      else set_camera_thread CamExited st
  | _ => st
  end.

(** The camera worker with an image in hand.  Its handler is
    [except Exception], which takes all that [_draw_image] raises here: the
    errors of PIL and of the camera write. *)
Definition camera_thread_draw st : St :=
  match camera_thread st with
  | CamGot img =>
      set_camera_thread CamAtLoop
        match _draw_image img st with
        | Ok st' => st'
        | Raised _ st' => emit [EvLogError "Error writing to camera"] st'
        end
  | _ => st
  end.

(** *** The sink worker *)

(** The branches of [_sink_thread_handler] on the dequeued frame. *)
Definition sink_dispatch (frame : Frame) st : Result St :=
  if negb (is_interrupted st) then
    match frame with
    | AudioRawFrame audio _ _ =>
        if audio_out_enabled params then
          let (buf, st') := _maybe_send_audio (buffer st ++ audio) st in
          Ok (set_buffer buf st')
        else Ok (_internal_push_frame frame DOWNSTREAM st)
    | ImageFrame img =>
        if camera_out_enabled params then Ok (_set_camera_image img st)
        else Ok (_internal_push_frame frame DOWNSTREAM st)
    | SpriteFrame images =>
        if camera_out_enabled params then Ok (_set_camera_images images st)
        else Ok (_internal_push_frame frame DOWNSTREAM st)
    | TransportMessageFrame _ => call (EvSendMessage frame) (send_message frame) st
    | MetricsFrame _ => call (EvSendMetrics frame) (send_metrics frame) st
    | _ => Ok (_internal_push_frame frame DOWNSTREAM st)
    end
  else Ok (set_buffer [] st).

(** The sink worker at [while self._running]: it leaves, or it dequeues a
    frame, or [get] times out and it comes back. *)
Definition sink_thread_get st : St :=
  match sink_thread st with
  | SinkAtLoop =>
      if running st then
        match sink_queue st with
        | [] => st
        | frame :: q => set_sink_thread (SinkGot frame) (set_sink_queue q st)
        end
      else set_sink_thread SinkExited st
  | _ => st
  end.

(** The sink worker with a frame in hand: the rest of the [try] block and
    its handlers. *)
Definition sink_thread_handle st : St :=
  match sink_thread st with
  | SinkGot frame =>
      set_sink_thread SinkAtLoop
        match sink_dispatch frame st with
        | Ok st' => if is_EndFrame frame then stop st' else st'
        | Raised _ st' =>
            emit [EvLogError "Error processing sink queue"] st'
        end
  | _ => st
  end.

(** *** Schedules *)

Inductive Worker := SinkGet | SinkHandle | PushTask | CameraGet | CameraDraw.

Definition worker_step (w : Worker) st : St :=
  match w with
  | SinkGet => sink_thread_get st
  | SinkHandle => sink_thread_handle st
  | PushTask => push_task_step st
  | CameraGet => camera_thread_get st
  | CameraDraw => camera_thread_draw st
  end.

Definition run_workers (ws : list Worker) st : St :=
  fold_left (fun st w => worker_step w st) ws st.

Inductive Action :=
| Call (frame : Frame) (direction : FrameDirection)
| Work (w : Worker).

Definition step (a : Action) st : St :=
  match a with
  | Call frame direction => state_of (process_frame frame direction st)
  | Work w => worker_step w st
  end.

Definition run (acts : list Action) st : St :=
  fold_left (fun st a => step a st) acts st.

(** The states the transport can be in after [__init__]. *)
Definition reachable st : Prop :=
  exists allow d acts, st = run acts (init allow d).

End Transport.

(** ** Vocabulary of the statements *)

(** ⌈n / c⌉ *)
Definition ceil_div (n c : nat) : nat := (n + c - 1) / c.

Definition frame_audio (f : Frame) : bytes :=
  match f with AudioRawFrame audio _ _ => audio | _ => [] end.

(** An audio frame no longer than [c]; every other frame qualifies. *)
Definition chunk_sized (c : nat) (f : Frame) : Prop :=
  length (frame_audio f) <= c.

(** ** Concrete collaborators and settings, for the examples *)

(** A device that refuses every audio write. *)
Definition failing_audio : Collaborators unit := {|
  write_raw_audio_frames := fun _ _ => None;
  write_frame_to_camera := fun _ d => Some d;
  send_message := fun _ d => Some d;
  send_metrics := fun _ d => Some d
|}.

(** An imaging library whose images are their sizes: it decodes a payload
    that has a format, and scales to every size without a zero side. *)
Definition toy_imaging : Imaging (nat * nat).
Proof.
  refine {|
    Image_frombytes := fun fmt sz _ =>
      match fmt with Some _ => Some sz | None => None end;
    Image_resize := fun _ sz =>
      if (fst sz =? 0) || (snd sz =? 0) then None else Some sz;
    Image_tobytes := fun im => repeat Byte.x00 (fst im * snd im);
    Image_size := fun im => im;
    Image_format := fun _ => None
  |}.
  intros im sz im' E.
  destruct ((fst sz =? 0) || (snd sz =? 0)); congruence.
Defined.

(** 200 Hz, one channel: chunks of four bytes. *)
Definition params4 : TransportParams :=
  mkTransportParams true 200 1 true false 2 2 10.

Definition bytes6 : bytes :=
  [Byte.x01; Byte.x02; Byte.x03; Byte.x04; Byte.x05; Byte.x06].

Definition bytes8 : bytes := bytes6 ++ [Byte.x07; Byte.x08].

(** A started transport whose sink worker has just dequeued [frame], with
    [buf] left over in its buffer. *)
Definition holding (params : TransportParams) (frame : Frame) (buf : bytes)
    : State unit :=
  set_buffer buf (set_sink_thread (SinkGot frame) (start params (init true tt))).

(** The two flags of the shutdown. *)
Definition flags {Dev} (st : State Dev) : bool * bool :=
  (running st, stopped_event st).

(** ** Bookkeeping *)

Definition result_state {S} (r : Result S) : S :=
  match r with Ok st | Raised _ st => st end.

(** Enqueues to the current push queue and turns of the push task, in any
    order. *)
Inductive PushOp :=
| Enqueue (frame : Frame) (direction : FrameDirection)
| Deliver.

Definition push_op {Dev} (op : PushOp) (st : State Dev) : State Dev :=
  match op with
  | Enqueue frame direction => _internal_push_frame frame direction st
  | Deliver => push_task_step st
  end.

Definition run_push_ops {Dev} (ops : list PushOp) (st : State Dev) : State Dev :=
  fold_left (fun st op => push_op op st) ops st.

Fixpoint enqueued (ops : list PushOp) : list (Frame * FrameDirection) :=
  match ops with
  | [] => []
  | Enqueue frame direction :: ops' => (frame, direction) :: enqueued ops'
  | Deliver :: ops' => enqueued ops'
  end.

(** The part of the state that the sink worker owns or feeds on. *)
Definition sink_view {Dev} (st : State Dev) :=
  (buffer st, sink_queue st, sink_thread st).

(** The buffer is below the chunk size [c], and so is every audio frame that
    waits in the sink queue or in the hands of the sink worker. *)
Definition buffer_inv {Dev} (c : nat) (st : State Dev) : Prop :=
  length (buffer st) < c
  /\ Forall (chunk_sized c) (sink_queue st)
  /\ (forall frame, sink_thread st = SinkGot frame -> chunk_sized c frame).

(** Case analysis on the scrutinee of a [match] of the goal. *)
Ltac break_match :=
  match goal with
  | |- context [match ?x with _ => _ end] => destruct x eqn:?
  end.

(** ** The remaining methods *)

(** [send_audio] and [send_image]: the frame enters [process_frame]
    downstream. *)
Definition send_audio {Dev} (params : TransportParams)
    (audio : bytes) (sample_rate num_channels : nat) (st : State Dev)
    : Outcome (State Dev) :=
  process_frame params (AudioRawFrame audio sample_rate num_channels)
                DOWNSTREAM st.

Definition send_image {Dev} (params : TransportParams)
    (frame : ImageRawFrame + list ImageRawFrame) (st : State Dev)
    : Outcome (State Dev) :=
  process_frame params
    match frame with
    | inl img => ImageFrame img
    | inr images => SpriteFrame images
    end
    DOWNSTREAM st.

(** [cleanup] awaits the futures of the workers: it returns once they are
    done, and it is suspended as long as one of them runs.  The attribute
    [_camera_out_thread] is assigned by [start] only, so that reading it
    earlier raises [AttributeError]; [_sink_thread] is [None] until then,
    which the test skips. *)
Inductive CleanupOutcome :=
| CleanupReturned
| CleanupWaiting
| CleanupAttributeError.

Definition cleanup {Dev} (params : TransportParams) (st : State Dev)
    : CleanupOutcome :=
  let sink :=
    match sink_thread st with
    | SinkNotStarted | SinkExited => CleanupReturned
    | _ => CleanupWaiting
    end in
  if camera_out_enabled params then
    match camera_thread st with
    | CamNotStarted => CleanupAttributeError
    | CamExited => sink
    | _ => CleanupWaiting
    end
  else sink.

(** ** More vocabulary *)

(** The frames that [process_frame] pushes at once. *)
Definition is_control (f : Frame) : bool :=
  match f with
  | StartFrame | CancelFrame | StartInterruptionFrame | StopInterruptionFrame
  | SystemFrame _ => true
  | _ => false
  end.



(** The bytes handed to [write_raw_audio_frames], in the order of the
    calls. *)
Fixpoint written (t : list Event) : bytes :=
  match t with
  | [] => []
  | EvWriteAudio chunk :: t' => chunk ++ written t'
  | _ :: t' => written t'
  end.

(** The images handed to [write_frame_to_camera], in the order of the
    calls. *)
Fixpoint drawn (t : list Event) : list ImageRawFrame :=
  match t with
  | [] => []
  | EvWriteCamera f :: t' => f :: drawn t'
  | _ :: t' => drawn t'
  end.

(** An audio write carries exactly [c] bytes. *)
Definition exact_write (c : nat) (e : Event) : Prop :=
  match e with EvWriteAudio chunk => length chunk = c | _ => True end.

(** [n] turns of the loop of the sink worker, of the camera worker. *)
Definition sink_rounds (n : nat) : list Worker :=
  concat (repeat [SinkGet; SinkHandle] n).

Definition camera_rounds (n : nat) : list Worker :=
  concat (repeat [CameraGet; CameraDraw] n).

(** A device on which every call raises. *)
Definition failing_device : Collaborators unit := {|
  write_raw_audio_frames := fun _ _ => None;
  write_frame_to_camera := fun _ _ => None;
  send_message := fun _ _ => None;
  send_metrics := fun _ _ => None
|}.

(** 200 Hz, one channel, a live camera of two by two. *)
Definition params_live : TransportParams :=
  mkTransportParams true 200 1 true true 2 2 10.

(** ** More collaborators and settings *)

(** An audio sink that refuses every write until a transport message has
    gone out: the device is [true] from then on. *)
Definition late_audio : Collaborators bool := {|
  write_raw_audio_frames := fun _ (d : bool) => if d then Some d else None;
  write_frame_to_camera := fun _ d => Some d;
  send_message := fun _ _ => Some true;
  send_metrics := fun _ d => Some d
|}.

(** An imaging library for ["RGB"] images of three bytes a pixel: it
    decodes a payload of exactly that length, as PIL does, and scales to
    every size without a zero side. *)
Definition rgb_imaging : Imaging ((nat * nat) * bytes).
Proof.
  refine {|
    Image_frombytes := fun fmt sz data =>
      match fmt with
      | Some mode =>
          if String.eqb mode "RGB" && (length data =? 3 * (fst sz * snd sz))
          then Some (sz, data) else None
      | None => None
      end;
    Image_resize := fun _ sz =>
      if (fst sz =? 0) || (snd sz =? 0) then None
      else Some (sz, repeat Byte.x00 (3 * (fst sz * snd sz)));
    Image_tobytes := fun im => snd im;
    Image_size := fun im => fst im;
    Image_format := fun _ => None
  |}.
  intros im sz im' E.
  destruct ((fst sz =? 0) || (snd sz =? 0)); [discriminate |].
  injection E as <-. reflexivity.
Defined.


(** As many turns of the push task as items wait in the push queue. *)
Definition drain {Dev} (st : State Dev) : list PushOp :=
  repeat Deliver (length (push_queue st)).

(** * Facts *)

(** ** The chunker *)

Lemma ceil_div_0 c : 0 < c -> ceil_div 0 c = 0.
Proof. intros Hc. unfold ceil_div. apply Nat.div_small. lia. Qed.

Lemma ceil_div_step n c :
  0 < c -> 0 < n -> ceil_div n c = S (ceil_div (n - c) c).
Proof.
  intros Hc Hn. unfold ceil_div.
  destruct (le_lt_dec c n) as [Hle | Hlt].
  - replace (n + c - 1) with ((n - c + c - 1) + 1 * c) by lia.
    rewrite Nat.div_add by lia. lia.
  - replace (n - c) with 0 by lia.
    rewrite (Nat.div_small (0 + c - 1)) by lia.
    replace (n + c - 1) with ((n - 1) + 1 * c) by lia.
    rewrite Nat.div_add by lia. rewrite Nat.div_small by lia. reflexivity.
Qed.

Lemma ceil_div_bounds n c :
  0 < c -> n <= ceil_div n c * c < n + c.
Proof.
  intros Hc. unfold ceil_div.
  pose proof (Nat.div_mod_eq (n + c - 1) c) as E.
  pose proof (Nat.mod_upper_bound (n + c - 1) c) as B.
  nia.
Qed.

(** The indices of the loop in closed form: [i, i + c, i + 2c, ...]. *)
Lemma range_from_seq fuel i stop c :
  0 < c -> stop - i <= fuel ->
  range_from fuel i stop c
  = map (fun k => i + k * c) (seq 0 (ceil_div (stop - i) c)).
Proof.
  intros Hc. revert i.
  induction fuel as [| fuel IH]; intros i Hfuel; simpl.
  - replace (stop - i) with 0 by lia. now rewrite ceil_div_0.
  - destruct (Nat.ltb_spec i stop) as [Hlt | Hge].
    + rewrite (ceil_div_step (n := stop - i)) by lia.
      cbn [seq map]. rewrite Nat.add_0_r. f_equal.
      rewrite IH by lia.
      replace (stop - i - c) with (stop - (i + c)) by lia.
      rewrite <- seq_shift, map_map.
      apply map_ext. intros k. lia.
    + replace (stop - i) with 0 by lia. now rewrite ceil_div_0.
Qed.

Lemma slice_chunk {A} (s : list A) i c :
  slice s i (i + c) = firstn c (skipn i s).
Proof. unfold slice. f_equal. lia. Qed.

Lemma chunks_concat c audio sr ch fuel i :
  0 < c -> length audio - i <= fuel ->
  concat (map frame_audio
            (audio_chunks c audio sr ch (range_from fuel i (length audio) c)))
  = skipn i audio.
Proof.
  intros Hc. revert i.
  induction fuel as [| fuel IH]; intros i Hfuel; simpl.
  - symmetry. apply skipn_all2. lia.
  - destruct (Nat.ltb_spec i (length audio)) as [Hlt | Hge]; simpl.
    + rewrite IH by lia. rewrite slice_chunk.
      rewrite Nat.add_comm, <- skipn_skipn. apply firstn_skipn.
    + symmetry. apply skipn_all2. lia.
Qed.

Lemma chunk_length c (audio : bytes) k :
  length (slice audio (k * c) (k * c + c)) = Nat.min c (length audio - k * c).
Proof. rewrite slice_chunk, length_firstn, length_skipn. reflexivity. Qed.

Lemma removelast_map {A B} (g : A -> B) l :
  removelast (map g l) = map g (removelast l).
Proof.
  induction l as [| x [| y l] IH]; try reflexivity.
  cbn [map removelast] in *. now rewrite IH.
Qed.

Lemma removelast_seq a n : removelast (seq a n) = seq a (n - 1).
Proof.
  revert a. induction n as [| [| n] IH]; intros a; try reflexivity.
  change (seq a (S (S n))) with (a :: seq (S a) (S n)).
  change (removelast (a :: seq (S a) (S n)))
    with (a :: removelast (seq (S a) (S n))).
  rewrite IH. simpl. now rewrite Nat.sub_0_r.
Qed.

Lemma list_sum_length_concat {A} (l : list (list A)) :
  list_sum (map (@length A) l) = length (concat l).
Proof.
  induction l as [| x l IH]; simpl; [reflexivity |].
  now rewrite length_app, IH.
Qed.

Section ChunkerFacts.
Variables (c : nat) (audio : bytes) (sr ch : nat).
Hypothesis c_pos : 0 < c.

Let chunks : list Frame :=
  audio_chunks c audio sr ch (range_from (length audio) 0 (length audio) c).

Lemma chunks_closed_form :
  chunks = map (fun k => AudioRawFrame (slice audio (k * c) (k * c + c)) sr ch)
               (seq 0 (ceil_div (length audio) c)).
Proof.
  unfold chunks, audio_chunks.
  rewrite range_from_seq by lia.
  rewrite Nat.sub_0_r, map_map. reflexivity.
Qed.

Lemma chunks_count : length chunks = ceil_div (length audio) c.
Proof. rewrite chunks_closed_form. now rewrite length_map, length_seq. Qed.

Lemma chunks_payload : concat (map frame_audio chunks) = audio.
Proof. unfold chunks. now rewrite chunks_concat by lia. Qed.

Lemma chunks_total_length :
  list_sum (map (fun f => length (frame_audio f)) chunks) = length audio.
Proof.
  rewrite <- (map_map frame_audio (@length Byte.byte)).
  etransitivity; [apply list_sum_length_concat |].
  now rewrite chunks_payload.
Qed.

Lemma chunks_full_but_last :
  Forall (fun f => length (frame_audio f) = c) (removelast chunks).
Proof.
  rewrite chunks_closed_form, removelast_map, removelast_seq.
  apply Forall_map, Forall_forall. intros k Hk.
  apply in_seq in Hk. cbn [frame_audio].
  rewrite chunk_length.
  pose proof (ceil_div_bounds (length audio) c_pos) as B.
  apply Nat.min_l. nia.
Qed.

Lemma chunks_bounded : Forall (chunk_sized c) chunks.
Proof.
  rewrite chunks_closed_form.
  apply Forall_map, Forall_forall. intros k _.
  unfold chunk_sized. cbn [frame_audio]. rewrite chunk_length. lia.
Qed.

Lemma chunks_format :
  Forall (fun f => exists payload, f = AudioRawFrame payload sr ch) chunks.
Proof.
  unfold chunks, audio_chunks.
  apply Forall_map, Forall_forall. intros i _. eauto.
Qed.
End ChunkerFacts.

(** ** States *)

Lemma sink_put_all {Dev} (frames : list Frame) (st : State Dev) :
  fold_left (fun st chunk => sink_put chunk st) frames st
  = set_sink_queue (sink_queue st ++ frames) st.
Proof.
  revert st. induction frames as [| f frames IH]; intros st; simpl.
  - rewrite app_nil_r. now destruct st.
  - rewrite IH. unfold sink_put, set_sink_queue. simpl.
    now rewrite <- app_assoc.
Qed.

Lemma pushed_app t1 t2 : pushed (t1 ++ t2) = pushed t1 ++ pushed t2.
Proof.
  induction t1 as [| e t1 IH]; simpl; [reflexivity |].
  destruct e; simpl; now rewrite ?IH.
Qed.

(** ** The chunker, as [process_frame] runs it *)

Example chunker_six_bytes :
  process_frame params4 (AudioRawFrame bytes6 200 1) DOWNSTREAM (init true tt)
  = Returned (set_sink_queue
                [AudioRawFrame [Byte.x01; Byte.x02; Byte.x03; Byte.x04] 200 1;
                 AudioRawFrame [Byte.x05; Byte.x06] 200 1]
                (init true tt)).
Proof. reflexivity. Qed.

(** C2.  With a positive chunk size C, an audio frame of L bytes makes
    [process_frame] return after appending to the sink queue, in order,
    ⌈L/C⌉ audio frames: all but the last carry exactly C bytes, the lengths
    add up to L, the payloads concatenated are the original payload, and
    each frame has the sample rate and the channel count of the original. *)
Theorem C2_chunking_exact {Dev} params (st : State Dev) audio sr ch d :
  0 < audio_chunk_size params ->
  exists chunks,
    process_frame params (AudioRawFrame audio sr ch) d st
      = Returned (set_sink_queue (sink_queue st ++ chunks) st)
    /\ length chunks = ceil_div (length audio) (audio_chunk_size params)
    /\ Forall (fun f => length (frame_audio f) = audio_chunk_size params)
              (removelast chunks)
    /\ list_sum (map (fun f => length (frame_audio f)) chunks) = length audio
    /\ concat (map frame_audio chunks) = audio
    /\ Forall (fun f => exists payload, f = AudioRawFrame payload sr ch) chunks.
Proof.
  intros Hc.
  exists (audio_chunks (audio_chunk_size params) audio sr ch
            (range_from (length audio) 0 (length audio)
                        (audio_chunk_size params))).
  split.
  - unfold process_frame, _handle_audio, py_range, _audio_chunk_size.
    destruct (Nat.eqb_spec (audio_chunk_size params) 0) as [E | _]; [lia |].
    now rewrite sink_put_all.
  - repeat split.
    + now apply chunks_count.
    + now apply chunks_full_but_last.
    + now apply chunks_total_length.
    + now apply chunks_payload.
    + apply chunks_format.
Qed.

Lemma C2_chunking_exact_witness :
  0 < audio_chunk_size params4 /\
  exists chunks,
    process_frame params4 (AudioRawFrame bytes6 200 1) DOWNSTREAM (init true tt)
      = Returned (set_sink_queue (sink_queue (init true tt) ++ chunks)
                                 (init true tt))
    /\ length chunks = ceil_div (length bytes6) (audio_chunk_size params4)
    /\ Forall (fun f => length (frame_audio f) = audio_chunk_size params4)
              (removelast chunks)
    /\ list_sum (map (fun f => length (frame_audio f)) chunks) = length bytes6
    /\ concat (map frame_audio chunks) = bytes6
    /\ Forall (fun f => exists payload, f = AudioRawFrame payload 200 1) chunks.
Proof.
  assert (Hc : 0 < audio_chunk_size params4) by (vm_compute; lia).
  split; [exact Hc |].
  exact (C2_chunking_exact params4 (init true tt) bytes6 200 1 DOWNSTREAM Hc).
Defined.

(** C8.  An audio frame with an empty payload leaves the transport as it
    was: nothing is enqueued, written or emitted, so every later run goes on
    as if the frame had never come; and unless the chunk size is zero
    [process_frame] returns normally, without a trace of the frame. *)
Theorem C8_empty_audio_dropped {Dev} {collab : Collaborators Dev}
    {PILImage} {imaging : Imaging PILImage}
    params (st : State Dev) sr ch d :
  let o := process_frame params (AudioRawFrame [] sr ch) d st in
  state_of o = st
  /\ (forall acts, run params acts (state_of o) = run params acts st)
  /\ (audio_chunk_size params <> 0 -> o = Returned st).
Proof.
  cbn zeta.
  assert (E : state_of (process_frame params (AudioRawFrame [] sr ch) d st) = st).
  { unfold process_frame, _handle_audio, py_range, _audio_chunk_size.
    destruct (audio_chunk_size params =? 0); reflexivity. }
  split; [exact E | split].
  - intros acts. now rewrite E.
  - intros Hc.
    unfold process_frame, _handle_audio, py_range, _audio_chunk_size.
    destruct (Nat.eqb_spec (audio_chunk_size params) 0); [contradiction |].
    reflexivity.
Qed.

Lemma C8_empty_audio_dropped_witness :
  audio_chunk_size params4 <> 0 /\
  process_frame params4 (AudioRawFrame [] 200 1) DOWNSTREAM (init true tt)
  = Returned (init true tt).
Proof.
  assert (Hc : audio_chunk_size params4 <> 0) by (vm_compute; lia).
  split; [exact Hc |].
  exact (proj2 (proj2 (C8_empty_audio_dropped (collab := base_collaborators)
                         (imaging := toy_imaging)
                         params4 (init true tt) 200 1 DOWNSTREAM)) Hc).
Defined.

(** ** The push task *)

Lemma push_ops_fifo {Dev} ops (st : State Dev) :
  pushed (trace (run_push_ops ops st)) ++ push_queue (run_push_ops ops st)
  = pushed (trace st) ++ push_queue st ++ enqueued ops.
Proof.
  revert st. induction ops as [| op ops IH]; intros st; simpl.
  - now rewrite app_nil_r.
  - unfold run_push_ops in *. rewrite IH. destruct op as [f d |]; simpl.
    + now rewrite <- app_assoc.
    + unfold push_task_step. destruct (push_queue st) as [| [f d] q] eqn:E.
      * now rewrite E.
      * simpl. rewrite pushed_app. simpl. now rewrite <- app_assoc.
Qed.

(** The push task empties its queue in as many turns as items wait, and
    hands them to [push_frame] in the order of the queue. *)
Lemma push_task_drains {Dev} q : forall st : State Dev,
  push_queue st = q ->
  pushed (trace (run_push_ops (drain st) st)) = pushed (trace st) ++ q
  /\ push_queue (run_push_ops (drain st) st) = [].
Proof.
  unfold drain.
  induction q as [| [f d] q IH]; intros st Hq; rewrite Hq.
  - simpl. now rewrite app_nil_r.
  - cbn [length repeat].
    change (run_push_ops (Deliver :: repeat Deliver (length q)) st)
      with (run_push_ops (repeat Deliver (length q)) (push_task_step st)).
    assert (E : push_task_step st = push_frame f d (set_push_queue q st))
      by (unfold push_task_step; now rewrite Hq).
    rewrite E.
    destruct (IH (push_frame f d (set_push_queue q st)) eq_refl) as [Hp Hq'].
    cbn [push_queue push_frame emit set_push_queue] in Hp, Hq'.
    split; [| exact Hq'].
    rewrite Hp. simpl. rewrite pushed_app. simpl. now rewrite <- app_assoc.
Qed.

Example interruption_drops_two :
  let st := _internal_push_frame (OtherFrame "b") DOWNSTREAM
              (_internal_push_frame (OtherFrame "a") DOWNSTREAM (init true tt)) in
  let st' := state_of (process_frame params4 StartInterruptionFrame DOWNSTREAM st) in
  pushed (trace (run_push_ops [Deliver; Enqueue (OtherFrame "c") DOWNSTREAM;
                               Deliver; Deliver] st'))
  = [(StartInterruptionFrame, DOWNSTREAM); (OtherFrame "c", DOWNSTREAM)].
Proof. reflexivity. Qed.

(** C1.  With interruptions allowed, [process_frame] on a
    [StartInterruptionFrame] returns with an empty push queue, having handed
    to [push_frame] the interruption frame alone; the state it leaves is the
    same whatever was pending in the push queue, so no later run can deliver
    a pending item; and of the items enqueued afterwards the push task
    delivers, at every moment, a prefix in the order of their enqueueing,
    the rest being still in the queue, and it has delivered them all, and
    nothing else, when it has taken as many turns as items were waiting. *)
Theorem C1_interruption_drops_pending {Dev} params (st : State Dev) d :
  interruptions_allowed st = true ->
  let st' := state_of (process_frame params StartInterruptionFrame d st) in
  process_frame params StartInterruptionFrame d st = Returned st'
  /\ push_queue st' = []
  /\ is_interrupted st' = true
  /\ pushed (trace st') = pushed (trace st) ++ [(StartInterruptionFrame, d)]
  /\ (forall pending,
        process_frame params StartInterruptionFrame d (set_push_queue pending st)
        = Returned st')
  /\ (forall ops,
        pushed (trace (run_push_ops ops st')) ++ push_queue (run_push_ops ops st')
        = pushed (trace st') ++ enqueued ops)
  /\ (forall ops,
        let st'' := run_push_ops ops st' in
        pushed (trace (run_push_ops (drain st'') st''))
        = pushed (trace st) ++ (StartInterruptionFrame, d) :: enqueued ops
        /\ push_queue (run_push_ops (drain st'') st'') = []).
Proof.
  intros Hallow.
  set (st1 := push_frame StartInterruptionFrame d
                (_create_push_task (set_is_interrupted true st))).
  assert (E : forall q,
             process_frame params StartInterruptionFrame d (set_push_queue q st)
             = Returned st1).
  { intros q. unfold process_frame, _handle_interruptions. simpl.
    now rewrite Hallow. }
  assert (E0 : process_frame params StartInterruptionFrame d st = Returned st1).
  { unfold process_frame, _handle_interruptions. simpl. now rewrite Hallow. }
  assert (Hp1 : pushed (trace st1)
                = pushed (trace st) ++ [(StartInterruptionFrame, d)]).
  { unfold st1. simpl. now rewrite pushed_app. }
  cbn zeta. rewrite E0. cbn [state_of].
  split; [reflexivity |].
  split; [reflexivity |].
  split; [reflexivity |].
  split; [exact Hp1 |].
  split; [exact E |].
  split.
  - intros ops. now rewrite push_ops_fifo.
  - intros ops.
    destruct (push_task_drains (run_push_ops ops st1) eq_refl) as [Hp Hq].
    split; [| exact Hq].
    rewrite Hp, push_ops_fifo, Hp1. cbn [push_queue st1 push_frame emit
      _create_push_task set_push_queue app].
    now rewrite <- app_assoc.
Qed.

Lemma C1_interruption_drops_pending_witness :
  interruptions_allowed
    (_internal_push_frame (OtherFrame "b") DOWNSTREAM
       (_internal_push_frame (OtherFrame "a") DOWNSTREAM (init true tt)))
  = true
  /\ pushed (trace
        (run_push_ops [Deliver; Deliver]
           (run_push_ops [Enqueue (OtherFrame "c") DOWNSTREAM;
                          Enqueue (OtherFrame "d") UPSTREAM]
              (state_of
                 (process_frame params4 StartInterruptionFrame DOWNSTREAM
                    (_internal_push_frame (OtherFrame "b") DOWNSTREAM
                       (_internal_push_frame (OtherFrame "a") DOWNSTREAM
                          (init true tt))))))))
     = [(StartInterruptionFrame, DOWNSTREAM); (OtherFrame "c", DOWNSTREAM);
        (OtherFrame "d", UPSTREAM)].
Proof.
  split; [reflexivity |].
  exact (proj1 (proj2 (proj2 (proj2 (proj2 (proj2 (proj2
    (C1_interruption_drops_pending params4
       (_internal_push_frame (OtherFrame "b") DOWNSTREAM
          (_internal_push_frame (OtherFrame "a") DOWNSTREAM (init true tt)))
       DOWNSTREAM eq_refl))))))
    [Enqueue (OtherFrame "c") DOWNSTREAM; Enqueue (OtherFrame "d") UPSTREAM])).
Defined.

(** ** Audio out *)

Section AudioOut.
Context {Dev : Type} {collab : Collaborators Dev}.
Variable params : TransportParams.
Implicit Type st : State Dev.

Let C := audio_chunk_size params.

Lemma maybe_send_audio_short buf st :
  length buf < C -> _maybe_send_audio params buf st = (buf, st).
Proof.
  intros Hlen. unfold _maybe_send_audio, _audio_chunk_size.
  destruct (Nat.leb_spec (audio_chunk_size params) (length buf)); [| reflexivity].
  unfold C in Hlen. lia.
Qed.

Lemma maybe_send_audio_ok buf st d' :
  C <= length buf ->
  write_raw_audio_frames (firstn C buf) (dev st) = Some d' ->
  _maybe_send_audio params buf st
  = (skipn C buf, set_dev d' (emit [EvWriteAudio (firstn C buf)] st)).
Proof.
  intros Hlen Hw. unfold _maybe_send_audio, _audio_chunk_size, call.
  fold C. destruct (Nat.leb_spec C (length buf)); [| lia].
  simpl. now rewrite Hw.
Qed.

Lemma maybe_send_audio_failed buf st :
  C <= length buf ->
  write_raw_audio_frames (firstn C buf) (dev st) = None ->
  _maybe_send_audio params buf st
  = (buf, emit [EvLogError "Error writing audio frames"]
               (emit [EvWriteAudio (firstn C buf)] st)).
Proof.
  intros Hlen Hw. unfold _maybe_send_audio, _audio_chunk_size, call.
  fold C. destruct (Nat.leb_spec C (length buf)); [| lia].
  simpl. now rewrite Hw.
Qed.

End AudioOut.

(** ** The sink worker with a frame in hand *)

Example one_flush_of_eight_bytes :
  let st' := sink_thread_handle (collab := base_collaborators) params4
               (holding params4 (AudioRawFrame bytes8 200 1) []) in
  buffer st' = [Byte.x05; Byte.x06; Byte.x07; Byte.x08]
  /\ trace st' = [EvWriteAudio [Byte.x01; Byte.x02; Byte.x03; Byte.x04]].
Proof. split; reflexivity. Qed.

(** C4, as the code has it.  Handling a dequeued audio frame, with audio
    output enabled and no interruption, appends the payload to the buffer
    and then makes at most one write: none if the buffer is shorter than the
    chunk size C, and otherwise one write of the first C bytes, the rest
    being kept.  So fewer than C bytes stay buffered when fewer than C were
    buffered before, the frame has at most C bytes and the write, if made,
    succeeds. *)
Theorem C4_one_flush_per_frame {Dev} {collab : Collaborators Dev}
    params (st : State Dev) audio sr ch :
  sink_thread st = SinkGot (AudioRawFrame audio sr ch) ->
  audio_out_enabled params = true ->
  is_interrupted st = false ->
  let C := audio_chunk_size params in
  let buf := buffer st ++ audio in
  let st' := sink_thread_handle params st in
  (length buf < C -> st' = set_sink_thread SinkAtLoop (set_buffer buf st))
  /\ (C <= length buf ->
      forall d', write_raw_audio_frames (firstn C buf) (dev st) = Some d' ->
      st' = set_sink_thread SinkAtLoop
              (set_buffer (skipn C buf)
                 (set_dev d' (emit [EvWriteAudio (firstn C buf)] st))))
  /\ (0 < C -> length (buffer st) < C -> length audio <= C ->
      write_raw_audio_frames (firstn C buf) (dev st) <> None ->
      length (buffer st') < C).
Proof.
  intros Hgot Hen Hint. cbn zeta.
  unfold sink_thread_handle, sink_dispatch.
  rewrite Hgot, Hint, Hen. cbn [negb is_EndFrame].
  repeat split.
  - intros Hlen. now rewrite maybe_send_audio_short.
  - intros Hlen d' Hw. now rewrite (maybe_send_audio_ok _ _ _ Hlen Hw).
  - intros Hc Hbuf Haudio Hw.
    destruct (Nat.lt_ge_cases (length (buffer st ++ audio))
                (audio_chunk_size params)) as [Hlt | Hge].
    + rewrite maybe_send_audio_short by exact Hlt. exact Hlt.
    + destruct (write_raw_audio_frames
                  (firstn (audio_chunk_size params) (buffer st ++ audio))
                  (dev st)) as [d' |] eqn:E; [| contradiction].
      rewrite (maybe_send_audio_ok _ _ _ Hge E). simpl.
      rewrite length_skipn, length_app. lia.
Qed.

Lemma C4_one_flush_per_frame_witness :
  let st := holding params4 (AudioRawFrame [Byte.x03; Byte.x04; Byte.x05; Byte.x06] 200 1)
              [Byte.x01; Byte.x02] in
  length (buffer st) < audio_chunk_size params4 /\
  length (buffer (sink_thread_handle (collab := base_collaborators) params4 st))
  < audio_chunk_size params4.
Proof.
  cbn zeta. split; [vm_compute; lia |].
  apply (proj2 (proj2
    (C4_one_flush_per_frame (collab := base_collaborators) params4
       (holding params4
          (AudioRawFrame [Byte.x03; Byte.x04; Byte.x05; Byte.x06] 200 1)
          [Byte.x01; Byte.x02])
       eq_refl eq_refl eq_refl))).
  - vm_compute; lia.
  - vm_compute; lia.
  - vm_compute; lia.
  - vm_compute; discriminate.
Defined.

(** C4 as stated fails in a state that the transport reaches.  The chunk
    size is four and the audio sink refuses writes until a message has gone
    out.  There come [StartFrame], four bytes of audio, a message, four
    bytes of audio.  The write of the first chunk fails and the chunk stays
    in the buffer; the message is sent; the second chunk is dequeued and
    handled with a single write, of the first chunk, and its own four
    bytes, a full chunk, stay in the buffer. *)
Lemma C4_counterexample :
  let first := [Byte.x01; Byte.x02; Byte.x03; Byte.x04] in
  let second := [Byte.x05; Byte.x06; Byte.x07; Byte.x08] in
  let st := run (collab := late_audio) (imaging := toy_imaging) params4
              [Call StartFrame DOWNSTREAM;
               Call (AudioRawFrame first 200 1) DOWNSTREAM;
               Call (TransportMessageFrame "join") DOWNSTREAM;
               Call (AudioRawFrame second 200 1) DOWNSTREAM;
               Work SinkGet; Work SinkHandle; Work SinkGet; Work SinkHandle;
               Work SinkGet]
              (init true false) in
  let st' := sink_thread_handle (collab := late_audio) params4 st in
  reachable (collab := late_audio) (imaging := toy_imaging) params4 st
  /\ sink_thread st = SinkGot (AudioRawFrame second 200 1)
  /\ audio_out_enabled params4 = true
  /\ is_interrupted st = false
  /\ buffer st = first
  /\ trace st' = trace st ++ [EvWriteAudio first]
  /\ buffer st' = second
  /\ ~ length (buffer st') < audio_chunk_size params4.
Proof.
  cbn zeta. split.
  - exists true, false. eexists. reflexivity.
  - do 6 (split; [vm_compute; reflexivity |]).
    vm_compute. lia.
Qed.

Example failed_write_of_four_bytes :
  let st' := sink_thread_handle (collab := failing_audio) params4
               (holding params4
                  (AudioRawFrame [Byte.x01; Byte.x02; Byte.x03; Byte.x04] 200 1) []) in
  buffer st' = [Byte.x01; Byte.x02; Byte.x03; Byte.x04]
  /\ sink_thread st' = SinkAtLoop
  /\ running st' = true.
Proof. repeat split; reflexivity. Qed.

(** C6.  When the write of a chunk raises while a dequeued audio frame is
    handled, the buffer stays as it was when the write was tried (the old
    bytes followed by the frame's), the error is logged after the call, the
    device, the running flag and the sink queue are untouched, and the
    worker is back at its loop: with the transport running it dequeues the
    next frame, and the next audio frame handled starts with a write of the
    same chunk. *)
Theorem C6_failed_write_keeps_buffer {Dev} {collab : Collaborators Dev}
    params (st : State Dev) audio sr ch :
  sink_thread st = SinkGot (AudioRawFrame audio sr ch) ->
  audio_out_enabled params = true ->
  is_interrupted st = false ->
  let C := audio_chunk_size params in
  let buf := buffer st ++ audio in
  C <= length buf ->
  write_raw_audio_frames (firstn C buf) (dev st) = None ->
  let st' := sink_thread_handle params st in
  buffer st' = buf
  /\ trace st' = trace st ++ [EvWriteAudio (firstn C buf);
                              EvLogError "Error writing audio frames"]
  /\ dev st' = dev st
  /\ running st' = running st
  /\ sink_queue st' = sink_queue st
  /\ sink_thread st' = SinkAtLoop
  /\ (forall next q, running st = true -> sink_queue st = next :: q ->
        sink_thread (sink_thread_get st') = SinkGot next)
  /\ (forall audio' sr' ch',
        exists rest,
          trace (sink_thread_handle params
                   (set_sink_thread (SinkGot (AudioRawFrame audio' sr' ch')) st'))
          = trace st' ++ EvWriteAudio (firstn C buf) :: rest).
Proof.
  intros Hgot Hen Hint C buf Hlen Hw st'.
  assert (E : st' = set_sink_thread SinkAtLoop
                      (set_buffer buf
                         (emit [EvLogError "Error writing audio frames"]
                            (emit [EvWriteAudio (firstn C buf)] st)))).
  { unfold st', sink_thread_handle, sink_dispatch.
    rewrite Hgot, Hint, Hen. cbn [negb is_EndFrame].
    fold buf. now rewrite (maybe_send_audio_failed _ _ _ Hlen Hw). }
  rewrite E. simpl.
  repeat split.
  - now rewrite <- app_assoc.
  - intros next q Hrun Hq. unfold sink_thread_get. simpl.
    now rewrite Hrun, Hq.
  - intros audio' sr' ch'.
    unfold sink_thread_handle, sink_dispatch. simpl.
    rewrite Hint, Hen. simpl.
    unfold _maybe_send_audio, _audio_chunk_size, call. fold C. simpl.
    assert (Hlen' : C <= length (buf ++ audio'))
      by (rewrite length_app; lia).
    destruct (Nat.leb_spec C (length (buf ++ audio'))); [| lia].
    rewrite firstn_app.
    replace (C - length buf) with 0 by lia.
    rewrite firstn_0, app_nil_r.
    destruct (write_raw_audio_frames (firstn C buf) (dev st)); simpl;
      eexists; rewrite <- ?app_assoc; simpl; reflexivity.
Qed.

Lemma C6_failed_write_keeps_buffer_witness :
  let audio := [Byte.x01; Byte.x02; Byte.x03; Byte.x04] in
  let st := holding params4 (AudioRawFrame audio 200 1) [] in
  let st' := sink_thread_handle (collab := failing_audio) params4 st in
  audio_chunk_size params4 <= length (buffer st ++ audio)
  /\ write_raw_audio_frames (Collaborators := failing_audio)
       (firstn (audio_chunk_size params4) (buffer st ++ audio)) (dev st) = None
  /\ buffer st' = buffer st ++ audio.
Proof.
  cbn zeta. split; [vm_compute; lia | split; [reflexivity |]].
  apply (C6_failed_write_keeps_buffer (collab := failing_audio) params4
           (holding params4
              (AudioRawFrame [Byte.x01; Byte.x02; Byte.x03; Byte.x04] 200 1) [])
           eq_refl eq_refl eq_refl).
  - vm_compute; lia.
  - reflexivity.
Defined.

Example end_frame_while_interrupted :
  let st := set_is_interrupted true (holding params4 EndFrame []) in
  let st' := sink_thread_handle (collab := base_collaborators) params4 st in
  running st' = false /\ stopped_event st' = true /\ push_queue st' = [].
Proof. repeat split; reflexivity. Qed.

(** C10.  The sink worker holding an [EndFrame] calls [stop] on the state
    that the branches before left, interrupted or not: a running transport
    is stopped and its completion event set.  While interrupted the frame
    is not forwarded and the buffer is emptied; otherwise the frame goes to
    the push queue first.  For every frame, the handling while interrupted
    is the emptying of the buffer and nothing else. *)
Theorem C10_end_stops_even_interrupted {Dev} {collab : Collaborators Dev}
    params (st : State Dev) :
  sink_thread st = SinkGot EndFrame ->
  let st' := sink_thread_handle params st in
  (exists st1, sink_dispatch params EndFrame st = Ok st1
               /\ st' = set_sink_thread SinkAtLoop (stop st1))
  /\ (running st = true -> running st' = false /\ stopped_event st' = true)
  /\ (is_interrupted st = true ->
      st' = set_sink_thread SinkAtLoop (stop (set_buffer [] st)))
  /\ (is_interrupted st = false ->
      st' = set_sink_thread SinkAtLoop
              (stop (_internal_push_frame EndFrame DOWNSTREAM st)))
  /\ (forall (s : State Dev) frame,
        sink_thread s = SinkGot frame -> is_interrupted s = true ->
        sink_dispatch params frame s = Ok (set_buffer [] s)
        /\ sink_thread_handle params s
           = set_sink_thread SinkAtLoop
               (if is_EndFrame frame then stop (set_buffer [] s)
                else set_buffer [] s)).
Proof.
  intros Hgot. cbn zeta.
  unfold sink_thread_handle. rewrite Hgot.
  unfold sink_dispatch. cbn [is_EndFrame].
  split; [| split; [| split; [| split]]].
  - destruct (is_interrupted st); simpl; eexists; split; reflexivity.
  - intros Hrun.
    destruct (is_interrupted st); simpl; unfold stop; simpl;
      rewrite Hrun; split; reflexivity.
  - intros Hint. now rewrite Hint.
  - intros Hint. now rewrite Hint.
  - intros s frame Hs Hint. rewrite Hs, Hint. split; reflexivity.
Qed.

Lemma C10_end_stops_even_interrupted_witness :
  let st := set_is_interrupted true (holding params4 EndFrame []) in
  sink_thread st = SinkGot EndFrame /\
  running st = true /\
  is_interrupted st = true /\
  running (sink_thread_handle (collab := base_collaborators) params4 st) = false /\
  stopped_event (sink_thread_handle (collab := base_collaborators) params4 st) = true.
Proof.
  cbn zeta. do 3 (split; [reflexivity |]).
  exact (proj1 (proj2
    (C10_end_stops_even_interrupted (collab := base_collaborators) params4
       (set_is_interrupted true (holding params4 EndFrame [])) eq_refl))
    eq_refl).
Defined.

(** ** The buffer invariant *)

Section BufferInvariant.
Context {Dev : Type} {collab : Collaborators Dev}.
Context {PILImage : Type} {imaging : Imaging PILImage}.
Variable params : TransportParams.
Implicit Type st : State Dev.

Let C := audio_chunk_size params.

Hypothesis C_pos : 0 < C.
Hypothesis writes_succeed :
  forall chunk d, write_raw_audio_frames chunk d <> None.

Lemma buffer_inv_view st st' :
  sink_view st' = sink_view st -> buffer_inv C st -> buffer_inv C st'.
Proof.
  unfold sink_view, buffer_inv. intros E. injection E as -> -> ->. auto.
Qed.

Lemma buffer_inv_init allow (d : Dev) : buffer_inv C (init allow d).
Proof.
  unfold buffer_inv. simpl. repeat split; try constructor; try exact C_pos.
  discriminate.
Qed.

Lemma buffer_inv_start st : buffer_inv C st -> buffer_inv C (start params st).
Proof.
  intros (Hb & Hq & Hg). unfold start, spawn_sink, spawn_camera, buffer_inv.
  repeat break_match; simpl in *; repeat split; auto; try congruence.
Qed.

Lemma stop_view st : sink_view (stop st) = sink_view st.
Proof. unfold stop. now break_match. Qed.

Lemma buffer_inv_sink_put frame st :
  chunk_sized C frame -> buffer_inv C st -> buffer_inv C (sink_put frame st).
Proof.
  intros Hf (Hb & Hq & Hg). unfold buffer_inv. simpl. repeat split; auto.
  apply Forall_app. auto.
Qed.

Lemma buffer_inv_handle_audio audio sr ch st :
  buffer_inv C st ->
  buffer_inv C (result_state (_handle_audio params audio sr ch st)).
Proof.
  intros (Hb & Hq & Hg).
  unfold _handle_audio, py_range, _audio_chunk_size. fold C.
  destruct (Nat.eqb_spec C 0); [lia |].
  cbn [result_state]. rewrite sink_put_all.
  unfold buffer_inv. simpl. repeat split; auto.
  apply Forall_app. split; [exact Hq |].
  now apply chunks_bounded.
Qed.

Lemma buffer_inv_process_frame frame d st :
  buffer_inv C st -> buffer_inv C (state_of (process_frame params frame d st)).
Proof.
  intros Hinv.
  assert (Hput : forall f, frame_audio f = [] ->
                   buffer_inv C (sink_put f st)).
  { intros f Hf. apply buffer_inv_sink_put; [| exact Hinv].
    unfold chunk_sized. rewrite Hf. simpl. lia. }
  unfold process_frame.
  destruct frame; cbn [is_CancelFrame is_EndFrame orb];
    try (repeat break_match; cbn [state_of]; now apply Hput).
  - (* Start *)
    apply (buffer_inv_view (st := start params st));
      [reflexivity | now apply buffer_inv_start].
  - (* Cancel *)
    break_match; cbn [state_of];
      (apply (buffer_inv_view (st := stop st));
       [reflexivity | apply (buffer_inv_view (stop_view st) Hinv)]).
  - (* StartInterruption *)
    apply (buffer_inv_view (st := st)); [| exact Hinv].
    unfold _handle_interruptions. now break_match.
  - (* StopInterruption *)
    apply (buffer_inv_view (st := st)); [| exact Hinv].
    unfold _handle_interruptions. now break_match.
  - (* System *)
    now apply (buffer_inv_view (st := st)).
  - (* Audio *)
    pose proof (buffer_inv_handle_audio audio sample_rate num_channels Hinv) as H.
    destruct (_handle_audio params audio sample_rate num_channels st);
      exact H.
Qed.

Lemma draw_image_view img st :
  sink_view (result_state (_draw_image params img st)) = sink_view st.
Proof.
  unfold _draw_image, call. repeat break_match; reflexivity.
Qed.

Lemma buffer_inv_sink_get st :
  buffer_inv C st -> buffer_inv C (sink_thread_get st).
Proof.
  intros Hinv. pose proof Hinv as (Hb & Hq & Hg).
  unfold sink_thread_get.
  destruct (sink_thread st); try exact Hinv.
  destruct (running st).
  - destruct (sink_queue st) as [| frame q]; [exact Hinv |].
    inversion Hq as [| ? ? Hframe Hrest]; subst.
    unfold buffer_inv. simpl. repeat split; auto.
    intros frame' E. now injection E as <-.
  - unfold buffer_inv. simpl. repeat split; auto. discriminate.
Qed.

Lemma buffer_inv_sink_dispatch frame st :
  chunk_sized C frame -> buffer_inv C st ->
  length (buffer (result_state (sink_dispatch params frame st))) < C
  /\ sink_queue (result_state (sink_dispatch params frame st)) = sink_queue st.
Proof.
  intros Hf (Hb & Hq & Hg). unfold sink_dispatch.
  destruct (is_interrupted st); cbn [negb]; [simpl; auto |].
  destruct frame;
    try (unfold _set_camera_image, _set_camera_images, call; simpl;
         repeat break_match; simpl; now auto).
  (* what is left is the audio frame *)
  destruct (audio_out_enabled params); [| simpl; now auto].
  unfold chunk_sized in Hf. cbn [frame_audio] in Hf.
  destruct (Nat.lt_ge_cases (length (buffer st ++ audio)) C) as [Hlt | Hge].
  - rewrite maybe_send_audio_short by exact Hlt. simpl. auto.
  - destruct (write_raw_audio_frames (firstn C (buffer st ++ audio)) (dev st))
      as [d' |] eqn:Hw; [| now apply writes_succeed in Hw].
    rewrite (maybe_send_audio_ok _ _ _ Hge Hw). simpl. split; [| reflexivity].
    rewrite length_skipn, length_app. lia.
Qed.

Lemma buffer_inv_sink_handle st :
  buffer_inv C st -> buffer_inv C (sink_thread_handle params st).
Proof.
  intros Hinv. unfold sink_thread_handle.
  destruct (sink_thread st) as [| | frame |] eqn:Hgot; try exact Hinv.
  pose proof Hinv as (Hb & Hq & Hg).
  destruct (buffer_inv_sink_dispatch (Hg frame Hgot) Hinv) as [Hb' Hq'].
  unfold buffer_inv.
  destruct (sink_dispatch params frame st) as [st1 | e st1];
    cbn [result_state] in *.
  - assert (E : sink_view (if is_EndFrame frame then stop st1 else st1)
                = sink_view st1)
      by (destruct (is_EndFrame frame); [apply stop_view | reflexivity]).
    unfold sink_view in E. injection E as Eb Eq _.
    simpl. rewrite Eb, Eq, Hq'. repeat split; auto. discriminate.
  - simpl. rewrite Hq'. repeat split; auto. discriminate.
Qed.

Lemma buffer_inv_worker w st :
  buffer_inv C st -> buffer_inv C (worker_step params w st).
Proof.
  intros Hinv. destruct w; simpl.
  - now apply buffer_inv_sink_get.
  - now apply buffer_inv_sink_handle.
  - apply (buffer_inv_view (st := st)); [| exact Hinv].
    unfold push_task_step. now repeat break_match.
  - apply (buffer_inv_view (st := st)); [| exact Hinv].
    unfold camera_thread_get. now repeat break_match.
  - apply (buffer_inv_view (st := st)); [| exact Hinv].
    unfold camera_thread_draw.
    destruct (camera_thread st); try reflexivity.
    pose proof (draw_image_view img st) as E.
    destruct (_draw_image params img st); exact E.
Qed.

Lemma buffer_inv_run acts st :
  buffer_inv C st -> buffer_inv C (run params acts st).
Proof.
  revert st. induction acts as [| a acts IH]; intros st Hinv; [exact Hinv |].
  apply IH. destruct a; simpl.
  - now apply buffer_inv_process_frame.
  - now apply buffer_inv_worker.
Qed.

Lemma buffer_inv_reachable st : reachable params st -> buffer_inv C st.
Proof.
  intros (allow & d & acts & ->). apply buffer_inv_run, buffer_inv_init.
Qed.
End BufferInvariant.

Example buffer_after_a_run :
  buffer (run (collab := base_collaborators) (imaging := toy_imaging) params4
            [Call StartFrame DOWNSTREAM; Call (AudioRawFrame bytes6 200 1) DOWNSTREAM;
             Work SinkGet; Work SinkHandle; Work SinkGet; Work SinkHandle]
            (init true tt))
  = [Byte.x05; Byte.x06].
Proof. reflexivity. Qed.

(** C3, as the code has it.  With a positive chunk size and an audio sink
    whose writes never raise, in every state the transport can reach the
    buffer of the sink worker is shorter than the chunk size, and it is so
    again when the worker has handled the frame it holds. *)
Theorem C3_buffer_below_chunk_size {Dev} {collab : Collaborators Dev}
    {PILImage} {imaging : Imaging PILImage} params (st : State Dev) :
  0 < audio_chunk_size params ->
  (forall chunk d, write_raw_audio_frames chunk d <> None) ->
  reachable params st ->
  length (buffer st) < audio_chunk_size params
  /\ forall frame, sink_thread st = SinkGot frame ->
       length (buffer (sink_thread_handle params st)) < audio_chunk_size params.
Proof.
  intros Hc Hw Hreach.
  pose proof (buffer_inv_reachable Hc Hw Hreach) as Hinv.
  split; [apply Hinv |].
  intros frame _.
  apply (buffer_inv_sink_handle params Hc Hw Hinv).
Qed.

Lemma C3_buffer_below_chunk_size_witness :
  let st := run (collab := base_collaborators) (imaging := toy_imaging) params4
              [Call StartFrame DOWNSTREAM;
               Call (AudioRawFrame bytes6 200 1) DOWNSTREAM; Work SinkGet]
              (init true tt) in
  0 < audio_chunk_size params4
  /\ sink_thread st
     = SinkGot (AudioRawFrame [Byte.x01; Byte.x02; Byte.x03; Byte.x04] 200 1)
  /\ length (buffer (sink_thread_handle (collab := base_collaborators) params4 st))
     < audio_chunk_size params4.
Proof.
  cbn zeta.
  assert (Hc : 0 < audio_chunk_size params4) by (vm_compute; lia).
  split; [exact Hc | split; [reflexivity |]].
  assert (Hw : forall chunk d,
             write_raw_audio_frames (Collaborators := base_collaborators) chunk d
             <> None) by (intros chunk d; simpl; discriminate).
  assert (Hreach : reachable (collab := base_collaborators)
                     (imaging := toy_imaging) params4
                     (run (collab := base_collaborators) (imaging := toy_imaging)
                        params4
                        [Call StartFrame DOWNSTREAM;
                         Call (AudioRawFrame bytes6 200 1) DOWNSTREAM; Work SinkGet]
                        (init true tt))).
  { exists true, tt. eexists. reflexivity. }
  exact (proj2 (C3_buffer_below_chunk_size Hc Hw Hreach)
               (AudioRawFrame [Byte.x01; Byte.x02; Byte.x03; Byte.x04] 200 1)
               eq_refl).
Defined.

(** C3 as stated fails where the audio sink raises: after [StartFrame] and
    an audio frame of one chunk, the sink worker dequeues the chunk, the
    write fails, and the buffer keeps its four bytes, the chunk size. *)
Lemma C3_counterexample :
  exists (st : State unit) frame,
    reachable (collab := failing_audio) (imaging := toy_imaging) params4 st
    /\ sink_thread st = SinkGot frame
    /\ ~ length (buffer (sink_thread_handle (collab := failing_audio) params4 st))
         < audio_chunk_size params4.
Proof.
  exists (run (collab := failing_audio) (imaging := toy_imaging) params4
            [Call StartFrame DOWNSTREAM;
             Call (AudioRawFrame [Byte.x01; Byte.x02; Byte.x03; Byte.x04] 200 1)
                  DOWNSTREAM;
             Work SinkGet]
            (init true tt)).
  exists (AudioRawFrame [Byte.x01; Byte.x02; Byte.x03; Byte.x04] 200 1).
  split; [| split].
  - exists true, tt. eexists. reflexivity.
  - reflexivity.
  - vm_compute. lia.
Qed.

(** ** Camera out *)

Lemma size_eqb_spec a b : reflect (a = b) (size_eqb a b).
Proof.
  destruct a as [w h], b as [w' h']. unfold size_eqb. simpl.
  destruct (Nat.eqb_spec w w'), (Nat.eqb_spec h h'); constructor; congruence.
Qed.

Example draw_resizes_once :
  trace (result_state
           (_draw_image (collab := base_collaborators) (imaging := rgb_imaging)
              params4
              (mkImageRawFrame [Byte.x01; Byte.x02; Byte.x03] (1, 1) (Some "RGB"))
              (init true tt)))
  = [EvResize (1, 1) (2, 2);
     EvLogWarning "does not have the expected size, resizing";
     EvWriteCamera (mkImageRawFrame (repeat Byte.x00 12) (2, 2) None)].
Proof. reflexivity. Qed.

(** C7, as the code has it.  [_draw_image] on a frame whose size is not
    the configured one, where PIL decodes the payload and scales it,
    resizes once, logs a warning, and then calls the camera write with a
    frame of exactly the configured width and height; where PIL refuses the
    payload, the error leaves [_draw_image] with nothing resized, logged or
    written; on a frame of the configured size it calls the camera write
    with the frame itself and nothing else. *)
Theorem C7_draw_image_resizes {Dev} {collab : Collaborators Dev}
    {PILImage} {imaging : Imaging PILImage}
    params (st : State Dev) (frame : ImageRawFrame) :
  let desired_size := (camera_out_width params, camera_out_height params) in
  let st' := result_state (_draw_image params frame st) in
  (size frame <> desired_size ->
   forall decoded resized : PILImage,
     Image_frombytes (format frame) (size frame) (image frame) = Some decoded ->
     Image_resize decoded desired_size = Some resized ->
     exists written,
       trace st' = trace st ++ [EvResize (size frame) desired_size;
                                EvLogWarning "does not have the expected size, resizing";
                                EvWriteCamera written]
       /\ size written = (camera_out_width params, camera_out_height params))
  /\ (size frame <> desired_size ->
      Image_frombytes (format frame) (size frame) (image frame) = None ->
      _draw_image params frame st = Raised ValueError st)
  /\ (size frame = desired_size ->
      trace st' = trace st ++ [EvWriteCamera frame]).
Proof.
  cbn zeta. unfold _draw_image. split; [| split].
  - intros Hsize img resized Hdecode Hresize.
    destruct (size_eqb_spec (size frame)
                (camera_out_width params, camera_out_height params));
      [contradiction |].
    rewrite Hdecode, Hresize.
    eexists. split.
    + unfold call. break_match; simpl; rewrite <- !app_assoc; reflexivity.
    + simpl. now apply Image_resize_size in Hresize.
  - intros Hsize Hdecode.
    destruct (size_eqb_spec (size frame)
                (camera_out_width params, camera_out_height params));
      [contradiction |].
    now rewrite Hdecode.
  - intros Hsize.
    destruct (size_eqb_spec (size frame)
                (camera_out_width params, camera_out_height params));
      [| contradiction].
    unfold call. break_match; reflexivity.
Qed.

Lemma C7_draw_image_resizes_witness :
  size (mkImageRawFrame [Byte.x01; Byte.x02; Byte.x03] (1, 1) (Some "RGB"))
  <> (camera_out_width params4, camera_out_height params4)
  /\ exists written,
       trace (result_state
                (_draw_image (collab := base_collaborators)
                   (imaging := rgb_imaging) params4
                   (mkImageRawFrame [Byte.x01; Byte.x02; Byte.x03] (1, 1)
                      (Some "RGB"))
                   (init true tt)))
       = trace (init true tt)
         ++ [EvResize (1, 1)
               (camera_out_width params4, camera_out_height params4);
             EvLogWarning "does not have the expected size, resizing";
             EvWriteCamera written]
       /\ size written = (camera_out_width params4, camera_out_height params4).
Proof.
  assert (Hsize : size (mkImageRawFrame [Byte.x01; Byte.x02; Byte.x03] (1, 1)
                          (Some "RGB"))
                  <> (camera_out_width params4, camera_out_height params4))
    by (simpl; congruence).
  split; [exact Hsize |].
  exact (proj1 (C7_draw_image_resizes (collab := base_collaborators)
                  (imaging := rgb_imaging) params4 (init true tt)
                  (mkImageRawFrame [Byte.x01; Byte.x02; Byte.x03] (1, 1)
                     (Some "RGB")))
               Hsize ((1, 1), [Byte.x01; Byte.x02; Byte.x03])
               ((2, 2), repeat Byte.x00 12) eq_refl eq_refl).
Defined.

(** C7 as stated fails on an image of another size whose payload PIL
    refuses: one byte for a pixel of three.  [Image.frombytes] raises, and
    [_draw_image] is left with no resize, no warning and no frame handed to
    the camera write. *)
Lemma C7_counterexample :
  let frame := mkImageRawFrame [Byte.x01] (1, 1) (Some "RGB") in
  let r := _draw_image (collab := base_collaborators) (imaging := rgb_imaging)
             params4 frame (init true tt) in
  size frame <> (camera_out_width params4, camera_out_height params4)
  /\ r = Raised ValueError (init true tt)
  /\ trace (result_state r) = []
  /\ drawn (trace (result_state r)) = [].
Proof.
  cbn zeta. split; [simpl; congruence |].
  repeat split; reflexivity.
Qed.

(** ** Shutdown *)

Section Flags.
Context {Dev : Type} {collab : Collaborators Dev}.
Context {PILImage : Type} {imaging : Imaging PILImage}.
Variable params : TransportParams.
Implicit Type st : State Dev.

Lemma maybe_send_audio_flags buf st :
  flags (snd (_maybe_send_audio params buf st)) = flags st.
Proof.
  unfold _maybe_send_audio.
  destruct (_audio_chunk_size params <=? length buf); [| reflexivity].
  unfold call. cbn zeta.
  destruct (write_raw_audio_frames _ _); reflexivity.
Qed.

Lemma sink_dispatch_flags frame st :
  flags (result_state (sink_dispatch params frame st)) = flags st.
Proof.
  unfold sink_dispatch.
  destruct (is_interrupted st); cbn [negb]; [reflexivity |].
  destruct frame;
    try (unfold _set_camera_image, _set_camera_images, call; simpl;
         repeat break_match; reflexivity).
  destruct (audio_out_enabled params); [| reflexivity].
  pose proof (maybe_send_audio_flags (buffer st ++ audio) st) as E.
  destruct (_maybe_send_audio params (buffer st ++ audio) st). exact E.
Qed.

Lemma draw_image_flags img st :
  flags (result_state (_draw_image params img st)) = flags st.
Proof. unfold _draw_image, call. repeat break_match; reflexivity. Qed.

(** Once the running flag is down, no worker raises it or touches the
    completion event. *)
Lemma worker_step_flags w st :
  running st = false -> flags (worker_step params w st) = flags st.
Proof.
  intros Hrun. destruct w; simpl.
  - unfold sink_thread_get. now repeat break_match.
  - unfold sink_thread_handle.
    destruct (sink_thread st); try reflexivity.
    pose proof (sink_dispatch_flags frame st) as E.
    destruct (sink_dispatch params frame st) as [st1 | e st1];
      cbn [result_state] in E; [| exact E].
    destruct (is_EndFrame frame); [| exact E].
    unfold stop. unfold flags in E. injection E as Er Ee.
    rewrite Er, Hrun. simpl. unfold flags. simpl. congruence.
  - unfold push_task_step. now repeat break_match.
  - unfold camera_thread_get. now repeat break_match.
  - unfold camera_thread_draw.
    destruct (camera_thread st); try reflexivity.
    pose proof (draw_image_flags img st) as E.
    destruct (_draw_image params img st); exact E.
Qed.



End Flags.

Example cancel_before_start :
  process_frame params4 CancelFrame DOWNSTREAM (init true tt)
  = Waiting (push_frame CancelFrame DOWNSTREAM (init true tt)).
Proof. reflexivity. Qed.




(** C5, on the code.  After [StartFrame] and a transport message, let the
    sink worker dequeue the message, and only then let [CancelFrame] come:
    [process_frame] returns at once, the event being set by [stop] itself,
    while the sink worker holds the message and the camera worker is in its
    loop; the message is sent after the return.  Likewise for [EndFrame]:
    with the camera worker holding an image, the sink worker handles the
    [EndFrame], which sets the event the caller waits for, and the image is
    written to the camera afterwards. *)
Theorem C5_event_set_before_workers_exit :
  let message := TransportMessageFrame "m" in
  let img := mkImageRawFrame [Byte.x00] (2, 2) (Some "RGB") in
  let go := run (collab := base_collaborators) (imaging := toy_imaging) params4 in
  let st3 := go [Call StartFrame DOWNSTREAM; Call message DOWNSTREAM;
                 Work SinkGet] (init true tt) in
  let st3' := go [Call StartFrame DOWNSTREAM; Call (ImageFrame img) DOWNSTREAM;
                  Work SinkGet; Work SinkHandle; Work CameraGet] (init true tt) in
  (exists st4,
     process_frame params4 CancelFrame DOWNSTREAM st3 = Returned st4
     /\ sink_thread st4 = SinkGot message
     /\ camera_thread st4 = CamAtLoop
     /\ trace (go [Work SinkHandle] st4) = trace st4 ++ [EvSendMessage message])
  /\ (exists st4 st5,
        process_frame params4 EndFrame DOWNSTREAM st3' = Waiting st4
        /\ st5 = go [Work SinkGet; Work SinkHandle] st4
        /\ stopped_event st5 = true
        /\ camera_thread st5 = CamGot img
        /\ trace (go [Work CameraDraw] st5) = trace st5 ++ [EvWriteCamera img]).
Proof.
  intros message img go st3 st3'. split.
  - exists (state_of (process_frame params4 CancelFrame DOWNSTREAM st3)).
    split; [vm_compute; reflexivity |].
    split; [vm_compute; reflexivity |].
    split; vm_compute; reflexivity.
  - exists (state_of (process_frame params4 EndFrame DOWNSTREAM st3')).
    exists (go [Work SinkGet; Work SinkHandle]
               (state_of (process_frame params4 EndFrame DOWNSTREAM st3'))).
    split; [vm_compute; reflexivity |].
    split; [vm_compute; reflexivity |].
    split; [vm_compute; reflexivity |].
    split; vm_compute; reflexivity.
Qed.

(** * Further facts *)

(** ** [process_frame] *)

(** X1.  [process_frame] hands to [push_frame] the control frames, each at
    once and with the direction it came with, and no other frame; and a
    control frame leaves the sink queue as it is. *)
Theorem X1_control_frames_pushed_at_once {Dev} params (st : State Dev) f d :
  let st' := state_of (process_frame params f d st) in
  trace st' = trace st ++ (if is_control f then [EvPushFrame f d] else [])
  /\ (is_control f = true -> sink_queue st' = sink_queue st).
Proof.
  cbn zeta. split.
  - unfold process_frame.
    destruct f; cbn [is_control is_CancelFrame is_EndFrame orb];
      try (repeat break_match; simpl; rewrite ?app_nil_r; reflexivity).
    + (* Start *)
      simpl. unfold start, spawn_sink, spawn_camera.
      repeat break_match; reflexivity.
    + (* Cancel *)
      unfold stop. repeat break_match; reflexivity.
    + (* StartInterruption *)
      unfold _handle_interruptions. simpl. repeat break_match; reflexivity.
    + (* StopInterruption *)
      unfold _handle_interruptions. simpl. repeat break_match; reflexivity.
    + (* Audio *)
      unfold _handle_audio. destruct (py_range _ _ _); cbn [state_of].
      * now rewrite app_nil_r.
      * rewrite sink_put_all. simpl. now rewrite app_nil_r.
  - intros Hc. unfold process_frame.
    destruct f; try discriminate Hc;
      cbn [is_CancelFrame is_EndFrame orb].
    + simpl. unfold start, spawn_sink, spawn_camera.
      repeat break_match; reflexivity.
    + unfold stop. repeat break_match; reflexivity.
    + unfold _handle_interruptions. simpl. repeat break_match; reflexivity.
    + unfold _handle_interruptions. simpl. repeat break_match; reflexivity.
    + reflexivity.
Qed.

Lemma X1_control_frames_pushed_at_once_witness :
  is_control (SystemFrame "s") = true
  /\ sink_queue (state_of (process_frame params4 (SystemFrame "s") UPSTREAM
                             (sink_put (OtherFrame "a") (init true tt))))
     = [OtherFrame "a"].
Proof.
  split; [reflexivity |].
  exact (proj2 (X1_control_frames_pushed_at_once params4
                  (sink_put (OtherFrame "a") (init true tt))
                  (SystemFrame "s") UPSTREAM) eq_refl).
Defined.

(** X3.  An audio frame makes [process_frame] raise, with [ValueError]
    and the transport left as it was, exactly when the configured sample
    rate is below 100 or the number of channels is zero, that is when ten
    milliseconds of audio have no byte; in every other configuration an
    audio frame is taken. *)
Theorem X3_audio_fails_iff_no_chunk_size {Dev} params (st : State Dev)
    audio sr ch d :
  (audio_out_sample_rate params < 100 \/ audio_out_channels params = 0)
  <-> process_frame params (AudioRawFrame audio sr ch) d st
      = Failed ValueError st.
Proof.
  assert (Hzero : audio_chunk_size params = 0
                  <-> audio_out_sample_rate params < 100
                      \/ audio_out_channels params = 0).
  { unfold audio_chunk_size.
    pose proof (Nat.div_small_iff (audio_out_sample_rate params) 100) as D.
    specialize (D ltac:(discriminate)).
    split.
    - intros E. apply Nat.eq_mul_0 in E. destruct E as [E | E]; [| discriminate].
      apply Nat.eq_mul_0 in E. destruct E as [E | E]; [left | now right].
      now apply D.
    - intros [H | H].
      + apply D in H. now rewrite H.
      + rewrite H. now rewrite Nat.mul_0_r. }
  unfold process_frame, _handle_audio, py_range, _audio_chunk_size.
  destruct (Nat.eqb_spec (audio_chunk_size params) 0) as [E | E].
  - split; [reflexivity | intros _; now apply Hzero].
  - split; [intros H; now apply Hzero in H | discriminate].
Qed.

(** X4.  An audio frame that is not empty and no longer than the chunk size
    goes to the sink queue as one frame, equal to the one that came. *)
Theorem X4_short_audio_enqueued_whole {Dev} params (st : State Dev)
    audio sr ch d :
  0 < length audio <= audio_chunk_size params ->
  process_frame params (AudioRawFrame audio sr ch) d st
  = Returned (sink_put (AudioRawFrame audio sr ch) st).
Proof.
  intros [Hpos Hle].
  unfold process_frame, _handle_audio, py_range, _audio_chunk_size.
  destruct (Nat.eqb_spec (audio_chunk_size params) 0) as [E | _]; [lia |].
  cbn [is_CancelFrame is_EndFrame orb].
  rewrite chunks_closed_form by lia.
  assert (E1 : ceil_div (length audio) (audio_chunk_size params) = 1).
  { pose proof (@ceil_div_bounds (length audio) (audio_chunk_size params)) as B.
    specialize (B ltac:(lia)). nia. }
  rewrite E1. cbn [seq map fold_left].
  rewrite slice_chunk. cbn [skipn Nat.mul].
  now rewrite firstn_all2 by lia.
Qed.

Lemma X4_short_audio_enqueued_whole_witness :
  0 < length [Byte.x01; Byte.x02] <= audio_chunk_size params4
  /\ process_frame params4 (AudioRawFrame [Byte.x01; Byte.x02] 200 1) DOWNSTREAM
       (init true tt)
     = Returned (sink_put (AudioRawFrame [Byte.x01; Byte.x02] 200 1)
                          (init true tt)).
Proof.
  assert (H : 0 < length [Byte.x01; Byte.x02] <= audio_chunk_size params4)
    by (vm_compute; lia).
  split; [exact H |].
  exact (X4_short_audio_enqueued_whole params4 (init true tt)
           [Byte.x01; Byte.x02] 200 1 DOWNSTREAM H).
Defined.

(** ** Turns of the sink worker *)


Lemma run_workers_app {Dev} {collab : Collaborators Dev}
    {PILImage} {imaging : Imaging PILImage} params ws1 ws2 (st : State Dev) :
  run_workers params (ws1 ++ ws2) st
  = run_workers params ws2 (run_workers params ws1 st).
Proof. unfold run_workers. apply fold_left_app. Qed.

Lemma sink_rounds_S {Dev} {collab : Collaborators Dev}
    {PILImage} {imaging : Imaging PILImage} params n (st : State Dev) :
  run_workers params (sink_rounds (S n)) st
  = run_workers params (sink_rounds n)
      (sink_thread_handle params (sink_thread_get st)).
Proof. reflexivity. Qed.

(** A turn of a running worker on a queue that is not empty. *)
Lemma sink_get_head {Dev} (st : State Dev) f q :
  running st = true -> sink_thread st = SinkAtLoop -> sink_queue st = f :: q ->
  sink_thread_get st = set_sink_thread (SinkGot f) (set_sink_queue q st).
Proof.
  intros Hrun Hloop Hq. unfold sink_thread_get. now rewrite Hloop, Hrun, Hq.
Qed.

Example forwarded_in_order :
  push_queue
    (run_workers (collab := base_collaborators) (imaging := toy_imaging) params4
       (sink_rounds 2)
       (sink_put (OtherFrame "b") (sink_put (OtherFrame "a")
          (start params4 (init true tt)))))
  = [(OtherFrame "a", DOWNSTREAM); (OtherFrame "b", DOWNSTREAM)].
Proof. reflexivity. Qed.





(** ** The audio stream *)

Section AudioStream.
Context {Dev : Type} {collab : Collaborators Dev}.
Context {PILImage : Type} {imaging : Imaging PILImage}.
Variable params : TransportParams.
Implicit Type st : State Dev.

Hypothesis enabled : audio_out_enabled params = true.
Hypothesis writes_succeed :
  forall chunk d, write_raw_audio_frames chunk d <> None.


End AudioStream.



Example six_bytes_sent :
  let st := run_workers (collab := base_collaborators) (imaging := toy_imaging)
              params4 (sink_rounds 2)
              (state_of (send_audio params4 bytes6 200 1
                           (start params4 (init true tt)))) in
  written (trace st) = [Byte.x01; Byte.x02; Byte.x03; Byte.x04]
  /\ buffer st = [Byte.x05; Byte.x06].
Proof. split; reflexivity. Qed.



(** ** Interruptions *)

Lemma interrupted_rounds {Dev} {collab : Collaborators Dev}
    {PILImage} {imaging : Imaging PILImage} params fs : forall st : State Dev,
  running st = true ->
  sink_thread st = SinkAtLoop ->
  is_interrupted st = true ->
  sink_queue st = fs ->
  Forall (fun f => is_EndFrame f = false) fs ->
  run_workers params (sink_rounds (length fs)) st
  = match fs with
    | [] => st
    | _ :: _ => set_buffer [] (set_sink_queue [] st)
    end.
Proof.
  induction fs as [| f fs IH]; intros st Hrun Hloop Hint Hq Hall;
    [reflexivity |].
  inversion Hall as [| ? ? Hend Hrest]; subst.
  cbn [length]. rewrite sink_rounds_S.
  rewrite (sink_get_head st Hrun Hloop Hq).
  assert (E : sink_thread_handle params
                (set_sink_thread (SinkGot f) (set_sink_queue fs st))
              = set_buffer [] (set_sink_queue fs st)).
  { unfold sink_thread_handle, sink_dispatch. simpl. rewrite Hint, Hend.
    destruct st; simpl in *; now subst. }
  rewrite E, (IH (set_buffer [] (set_sink_queue fs st)));
    try assumption; try reflexivity.
  destruct fs; reflexivity.
Qed.

Example interrupted_message_is_lost :
  let st := set_is_interrupted true
              (sink_put (TransportMessageFrame "m") (start params4 (init true tt))) in
  trace (run_workers (collab := base_collaborators) (imaging := toy_imaging)
           params4 (sink_rounds 1) st) = [].
Proof. reflexivity. Qed.

(** X7.  While the interrupted flag is up, a running sink worker discards
    every frame it dequeues, whatever its kind: when it has taken a queue
    without [EndFrame], the queue and the buffer are empty and nothing else
    has changed; no collaborator was called and nothing went to the push
    queue. *)
Theorem X7_interrupted_worker_discards {Dev} {collab : Collaborators Dev}
    {PILImage} {imaging : Imaging PILImage} params (st : State Dev) :
  running st = true ->
  sink_thread st = SinkAtLoop ->
  is_interrupted st = true ->
  sink_queue st <> [] ->
  Forall (fun f => is_EndFrame f = false) (sink_queue st) ->
  run_workers params (sink_rounds (length (sink_queue st))) st
  = set_buffer [] (set_sink_queue [] st).
Proof.
  intros Hrun Hloop Hint Hne Hall.
  rewrite (interrupted_rounds params st Hrun Hloop Hint eq_refl Hall).
  destruct (sink_queue st); [contradiction | reflexivity].
Qed.

Lemma X7_interrupted_worker_discards_witness :
  let st := set_is_interrupted true
              (sink_put (TransportMessageFrame "m")
                 (set_buffer [Byte.x01] (start params4 (init true tt)))) in
  sink_queue st <> []
  /\ run_workers (collab := base_collaborators) (imaging := toy_imaging)
       params4 (sink_rounds 1) st
     = set_buffer [] (set_sink_queue [] st).
Proof.
  cbn zeta.
  assert (Hne : sink_queue
                  (set_is_interrupted true
                     (sink_put (TransportMessageFrame "m")
                        (set_buffer [Byte.x01] (start params4 (init true tt)))))
                <> []) by (simpl; discriminate).
  split; [exact Hne |].
  assert (Hall : Forall (fun f => is_EndFrame f = false)
                        [TransportMessageFrame "m"]) by (repeat constructor).
  exact (X7_interrupted_worker_discards (collab := base_collaborators)
           (imaging := toy_imaging) params4
           (set_is_interrupted true
              (sink_put (TransportMessageFrame "m")
                 (set_buffer [Byte.x01] (start params4 (init true tt)))))
           eq_refl eq_refl eq_refl Hne Hall).
Defined.

(** X8.  Where interruptions are not allowed, the two interruption frames
    are pushed on and change nothing else: the flag stays as it is and the
    items pending in the push queue are kept: when the push task has
    taken as many turns as items wait, it has delivered them in their
    order, before anything enqueued later.  Where they are allowed,
    [StopInterruptionFrame] lowers the flag and keeps the push queue. *)
Theorem X8_interruption_frames_without_effect {Dev} params (st : State Dev) d :
  (interruptions_allowed st = false ->
   forall f, f = StartInterruptionFrame \/ f = StopInterruptionFrame ->
     process_frame params f d st = Returned (push_frame f d st)
     /\ forall ops,
          let st' := run_push_ops ops (push_frame f d st) in
          pushed (trace (run_push_ops (drain st') st'))
          = pushed (trace st) ++ [(f, d)] ++ push_queue st ++ enqueued ops
          /\ push_queue (run_push_ops (drain st') st') = [])
  /\ (interruptions_allowed st = true ->
      process_frame params StopInterruptionFrame d st
      = Returned (push_frame StopInterruptionFrame d
                    (set_is_interrupted false st))).
Proof.
  split.
  - intros Hallow f Hf. split.
    + unfold process_frame, _handle_interruptions.
      destruct Hf as [-> | ->]; simpl; now rewrite Hallow.
    + intros ops.
      destruct (push_task_drains (run_push_ops ops (push_frame f d st)) eq_refl)
        as [Hp Hq].
      split; [| exact Hq].
      rewrite Hp, push_ops_fifo. simpl.
      now rewrite pushed_app, <- app_assoc.
  - intros Hallow. unfold process_frame, _handle_interruptions. simpl.
    now rewrite Hallow.
Qed.

Lemma X8_interruption_frames_without_effect_witness :
  interruptions_allowed
    (_internal_push_frame (OtherFrame "a") DOWNSTREAM (init false tt)) = false
  /\ pushed (trace
        (run_push_ops [Deliver; Deliver]
           (run_push_ops [Enqueue (OtherFrame "b") DOWNSTREAM]
              (push_frame StartInterruptionFrame DOWNSTREAM
                 (_internal_push_frame (OtherFrame "a") DOWNSTREAM
                    (init false tt))))))
     = [(StartInterruptionFrame, DOWNSTREAM); (OtherFrame "a", DOWNSTREAM);
        (OtherFrame "b", DOWNSTREAM)].
Proof.
  split; [reflexivity |].
  exact (proj1 (proj2 (proj1 (X8_interruption_frames_without_effect params4
                         (_internal_push_frame (OtherFrame "a") DOWNSTREAM
                            (init false tt)) DOWNSTREAM)
                      eq_refl StartInterruptionFrame (or_introl eq_refl))
         [Enqueue (OtherFrame "b") DOWNSTREAM])).
Defined.

(** ** What reaches the audio sink *)

Section ExactWrites.
Context {Dev : Type} {collab : Collaborators Dev}.
Context {PILImage : Type} {imaging : Imaging PILImage}.
Variable params : TransportParams.
Implicit Type st : State Dev.

Let P := exact_write (audio_chunk_size params).

Lemma emit_exact es st :
  Forall P es -> Forall P (trace st) -> Forall P (trace (emit es st)).
Proof. intros Hes Hst. simpl. apply Forall_app. auto. Qed.

Lemma call_exact ev op st :
  P ev -> Forall P (trace st) -> Forall P (trace (result_state (call ev op st))).
Proof.
  intros Hev Hst. unfold call. cbn zeta.
  destruct (op (dev (emit [ev] st))); simpl; apply Forall_app; auto.
Qed.

Lemma maybe_send_audio_exact buf st :
  Forall P (trace st) ->
  Forall P (trace (snd (_maybe_send_audio params buf st))).
Proof.
  intros Hst. unfold _maybe_send_audio, _audio_chunk_size.
  destruct (Nat.leb_spec (audio_chunk_size params) (length buf)) as [Hle | Hlt];
    [| exact Hst].
  assert (Hchunk : P (EvWriteAudio (firstn (audio_chunk_size params) buf))).
  { unfold P, exact_write. rewrite length_firstn. lia. }
  pose proof (call_exact
                (EvWriteAudio (firstn (audio_chunk_size params) buf))
                (write_raw_audio_frames (firstn (audio_chunk_size params) buf))
                st Hchunk Hst) as H.
  destruct (call _ _ st); cbn [result_state snd] in *; [exact H |].
  apply emit_exact; [repeat constructor | exact H].
Qed.

Lemma sink_dispatch_exact frame st :
  Forall P (trace st) ->
  Forall P (trace (result_state (sink_dispatch params frame st))).
Proof.
  intros Hst. unfold sink_dispatch.
  destruct (is_interrupted st); cbn [negb]; [exact Hst |].
  destruct frame;
    try exact Hst;
    try (apply call_exact; [exact I | exact Hst]);
    try (unfold _set_camera_image; repeat break_match; exact Hst).
  destruct (audio_out_enabled params); [| exact Hst].
  pose proof (maybe_send_audio_exact (buffer st ++ audio) st Hst) as H.
  destruct (_maybe_send_audio params (buffer st ++ audio) st). exact H.
Qed.

Lemma draw_image_exact img st :
  Forall P (trace st) ->
  Forall P (trace (result_state (_draw_image params img st))).
Proof.
  intros Hst. unfold _draw_image.
  destruct (size_eqb _ _); [apply call_exact; [exact I | exact Hst] |].
  destruct (Image_frombytes _ _ _); [| exact Hst].
  destruct (Image_resize _ _).
  - apply call_exact; [exact I |].
    apply emit_exact; [repeat constructor |].
    apply emit_exact; [repeat constructor | exact Hst].
  - apply emit_exact; [repeat constructor | exact Hst].
Qed.

Lemma worker_step_exact w st :
  Forall P (trace st) -> Forall P (trace (worker_step params w st)).
Proof.
  intros Hst. destruct w; simpl.
  - unfold sink_thread_get. repeat break_match; exact Hst.
  - unfold sink_thread_handle.
    destruct (sink_thread st); try exact Hst.
    pose proof (sink_dispatch_exact frame st Hst) as H.
    destruct (sink_dispatch params frame st); cbn [result_state] in H.
    + unfold stop. repeat break_match; exact H.
    + simpl. apply Forall_app. split; [exact H | repeat constructor].
  - unfold push_task_step. repeat break_match; try exact Hst.
    simpl. apply Forall_app. split; [exact Hst | repeat constructor].
  - unfold camera_thread_get. repeat break_match; try exact Hst.
    simpl. apply Forall_app. split; [exact Hst | repeat constructor].
  - unfold camera_thread_draw.
    destruct (camera_thread st); try exact Hst.
    pose proof (draw_image_exact img st Hst) as H.
    destruct (_draw_image params img st); cbn [result_state] in H.
    + exact H.
    + simpl. apply Forall_app. split; [exact H | repeat constructor].
Qed.

Lemma process_frame_exact f d st :
  Forall P (trace st) ->
  Forall P (trace (state_of (process_frame params f d st))).
Proof.
  intros Hst.
  assert (Hpush : forall s : State Dev,
             trace s = trace st -> Forall P (trace (push_frame f d s))).
  { intros s Es. simpl. rewrite Es. apply Forall_app.
    split; [exact Hst | repeat constructor]. }
  unfold process_frame.
  destruct f; cbn [is_CancelFrame is_EndFrame orb];
    try (repeat break_match; cbn [state_of]; exact Hst).
  - apply Hpush. unfold start, spawn_sink, spawn_camera.
    repeat break_match; reflexivity.
  - break_match; cbn [state_of]; apply Hpush;
      unfold stop; repeat break_match; reflexivity.
  - apply Hpush. unfold _handle_interruptions. repeat break_match; reflexivity.
  - apply Hpush. unfold _handle_interruptions. repeat break_match; reflexivity.
  - now apply Hpush.
  - unfold _handle_audio. destruct (py_range _ _ _); cbn [state_of];
      [exact Hst |].
    rewrite sink_put_all. exact Hst.
Qed.

Lemma run_exact acts st :
  Forall P (trace st) -> Forall P (trace (run params acts st)).
Proof.
  revert st. induction acts as [| a acts IH]; intros st Hst; [exact Hst |].
  apply IH. destruct a; simpl.
  - now apply process_frame_exact.
  - now apply worker_step_exact.
Qed.
End ExactWrites.

(** X9.  In every state the transport can reach, each call made so far to
    [write_raw_audio_frames] carried exactly one chunk size of bytes,
    whatever the collaborators do and whatever frames came. *)
Theorem X9_audio_writes_are_whole_chunks {Dev} {collab : Collaborators Dev}
    {PILImage} {imaging : Imaging PILImage} params (st : State Dev) :
  reachable params st ->
  Forall (exact_write (audio_chunk_size params)) (trace st).
Proof.
  intros (allow & d & acts & ->).
  apply run_exact. constructor.
Qed.

Lemma X9_audio_writes_are_whole_chunks_witness :
  Forall (exact_write (audio_chunk_size params4))
    (trace (run (collab := failing_audio) (imaging := toy_imaging) params4
              [Call StartFrame DOWNSTREAM;
               Call (AudioRawFrame bytes8 200 1) DOWNSTREAM;
               Work SinkGet; Work SinkHandle; Work SinkGet; Work SinkHandle]
              (init true tt))).
Proof.
  apply (X9_audio_writes_are_whole_chunks (collab := failing_audio)
           (imaging := toy_imaging) (params := params4)).
  exists true, tt. eexists. reflexivity.
Defined.

(** ** Life cycle *)

(** X10.  [start] on a running transport and [stop] on a stopped one do
    nothing, so that each is idempotent; and [stop] after [start] leaves
    the flag down and the completion event set, whatever the state was. *)
Theorem X10_start_stop_idempotent {Dev} params (st : State Dev) :
  start params (start params st) = start params st
  /\ stop (stop st) = stop st
  /\ running (stop (start params st)) = false
  /\ stopped_event (stop (start params st)) = true.
Proof.
  assert (Hs : running (start params st) = true).
  { unfold start, spawn_sink, spawn_camera.
    destruct (running st) eqn:E; [exact E |].
    repeat break_match; reflexivity. }
  split; [| split; [| split]].
  - unfold start at 1. now rewrite Hs.
  - unfold stop. destruct (running st) eqn:E; simpl; [reflexivity |].
    now rewrite E.
  - unfold stop. now rewrite Hs.
  - unfold stop. now rewrite Hs.
Qed.

Section SetOnce.
Context {Dev : Type} {collab : Collaborators Dev}.
Context {PILImage : Type} {imaging : Imaging PILImage}.
Variable params : TransportParams.
Implicit Type st : State Dev.

Lemma worker_step_event w st :
  stopped_event st = true -> stopped_event (worker_step params w st) = true.
Proof.
  intros Hev. destruct w; simpl.
  - unfold sink_thread_get. repeat break_match; exact Hev.
  - unfold sink_thread_handle.
    destruct (sink_thread st); try exact Hev.
    pose proof (sink_dispatch_flags params frame st) as E.
    unfold flags in E. injection E as _ Ee.
    destruct (sink_dispatch params frame st); cbn [result_state] in Ee.
    + unfold stop. repeat break_match; simpl; congruence.
    + simpl. congruence.
  - unfold push_task_step. repeat break_match; exact Hev.
  - unfold camera_thread_get. repeat break_match; exact Hev.
  - unfold camera_thread_draw.
    destruct (camera_thread st); try exact Hev.
    pose proof (draw_image_flags params img st) as E.
    unfold flags in E. injection E as _ Ee.
    destruct (_draw_image params img st); cbn [result_state] in Ee;
      simpl; congruence.
Qed.

Lemma process_frame_event f d st :
  stopped_event st = true ->
  stopped_event (state_of (process_frame params f d st)) = true.
Proof.
  intros Hev. unfold process_frame.
  destruct f; cbn [is_CancelFrame is_EndFrame orb];
    try (repeat break_match; cbn [state_of]; exact Hev).
  - simpl. unfold start, spawn_sink, spawn_camera.
    repeat break_match; exact Hev.
  - unfold stop. repeat break_match; simpl in *; congruence.
  - unfold _handle_interruptions. simpl. repeat break_match; exact Hev.
  - unfold _handle_interruptions. simpl. repeat break_match; exact Hev.
  - unfold _handle_audio. destruct (py_range _ _ _); cbn [state_of];
      [exact Hev |].
    rewrite sink_put_all. exact Hev.
Qed.

Lemma run_event acts st :
  stopped_event st = true -> stopped_event (run params acts st) = true.
Proof.
  revert st. induction acts as [| a acts IH]; intros st Hev; [exact Hev |].
  apply IH. destruct a; simpl.
  - now apply process_frame_event.
  - now apply worker_step_event.
Qed.
End SetOnce.

(** X11.  The completion event is never cleared: once it is set it stays
    set through every run, a restart included, and from then on
    [process_frame] on a [CancelFrame] or an [EndFrame] returns without
    waiting, the [EndFrame] being only queued. *)
Theorem X11_event_is_set_once {Dev} {collab : Collaborators Dev}
    {PILImage} {imaging : Imaging PILImage} params (st : State Dev) acts d :
  stopped_event st = true ->
  let st' := run params acts st in
  stopped_event st' = true
  /\ process_frame params CancelFrame d st'
     = Returned (push_frame CancelFrame d (stop st'))
  /\ process_frame params EndFrame d st' = Returned (sink_put EndFrame st').
Proof.
  intros Hev. cbn zeta.
  pose proof (run_event params acts st Hev) as Hev'.
  split; [exact Hev' | split].
  - unfold process_frame. cbn [is_CancelFrame is_EndFrame orb].
    assert (E : stopped_event (push_frame CancelFrame d (stop (run params acts st)))
                = true).
    { simpl. unfold stop. repeat break_match; simpl; congruence. }
    now rewrite E.
  - unfold process_frame. cbn [is_CancelFrame is_EndFrame orb].
    simpl. now rewrite Hev'.
Qed.

Lemma X11_event_is_set_once_witness :
  let st := state_of (process_frame params4 CancelFrame DOWNSTREAM
                        (start params4 (init true tt))) in
  let st' := run (collab := base_collaborators) (imaging := toy_imaging) params4
               [Call StartFrame DOWNSTREAM] st in
  stopped_event st = true
  /\ running st' = true
  /\ process_frame params4 EndFrame DOWNSTREAM st'
     = Returned (sink_put EndFrame st').
Proof.
  cbn zeta. split; [reflexivity | split; [reflexivity |]].
  exact (proj2 (proj2
    (X11_event_is_set_once (collab := base_collaborators)
       (imaging := toy_imaging) params4
       (state_of (process_frame params4 CancelFrame DOWNSTREAM
                    (start params4 (init true tt))))
       [Call StartFrame DOWNSTREAM] DOWNSTREAM eq_refl))).
Defined.

Section AfterStop.
Context {Dev : Type} {collab : Collaborators Dev}.
Context {PILImage : Type} {imaging : Imaging PILImage}.
Variable params : TransportParams.
Implicit Type st : State Dev.


End AfterStop.

Example frame_behind_end_stays :
  sink_queue
    (run_workers (collab := base_collaborators) (imaging := toy_imaging) params4
       (sink_rounds 3)
       (sink_put (OtherFrame "late") (sink_put EndFrame
          (start params4 (init true tt)))))
  = [OtherFrame "late"].
Proof. reflexivity. Qed.



(** ** [cleanup] *)

Section Cleanup.
Context {Dev : Type} {collab : Collaborators Dev}.
Context {PILImage : Type} {imaging : Imaging PILImage}.
Variable params : TransportParams.
Implicit Type st : State Dev.

Lemma sink_dispatch_camera_thread frame st :
  camera_thread (result_state (sink_dispatch params frame st))
  = camera_thread st.
Proof.
  unfold sink_dispatch.
  destruct (is_interrupted st); cbn [negb]; [reflexivity |].
  destruct frame;
    try (unfold _set_camera_image, _set_camera_images, call; simpl;
         repeat break_match; reflexivity).
  destruct (audio_out_enabled params); [| reflexivity].
  unfold _maybe_send_audio.
  destruct (_audio_chunk_size params <=? length (buffer st ++ audio));
    [| reflexivity].
  unfold call. cbn zeta.
  destruct (write_raw_audio_frames _ _); reflexivity.
Qed.

Lemma sink_handle_camera_thread st :
  camera_thread (sink_thread_handle params st) = camera_thread st.
Proof.
  unfold sink_thread_handle.
  destruct (sink_thread st); try reflexivity.
  pose proof (sink_dispatch_camera_thread frame st) as E.
  destruct (sink_dispatch params frame st); cbn [result_state] in E.
  - unfold stop. repeat break_match; exact E.
  - exact E.
Qed.

(** The sink worker is out after a handling and a look at the flag. *)
Lemma sink_leaves st :
  running st = false ->
  let st' := sink_thread_get (sink_thread_handle params st) in
  running st' = false
  /\ camera_thread st' = camera_thread st
  /\ (sink_thread st' = SinkExited
      \/ (sink_thread st' = SinkNotStarted /\ sink_thread st = SinkNotStarted)).
Proof.
  intros Hrun. cbn zeta.
  pose proof (worker_step_flags params SinkHandle st Hrun) as F.
  unfold flags in F. injection F as Fr _. cbn [worker_step] in Fr.
  rewrite Hrun in Fr.
  pose proof (sink_handle_camera_thread st) as Hc.
  assert (Ht : sink_thread (sink_thread_handle params st)
               = match sink_thread st with
                 | SinkGot _ => SinkAtLoop
                 | t => t
                 end).
  { unfold sink_thread_handle. destruct (sink_thread st) eqn:E; simpl;
      rewrite ?E; reflexivity. }
  unfold sink_thread_get. rewrite Fr, Ht.
  destruct (sink_thread st); simpl; rewrite ?Fr; auto.
Qed.

(** And so is the camera worker. *)
Lemma camera_leaves st :
  running st = false ->
  let st' := camera_thread_get params (camera_thread_draw params st) in
  sink_thread st' = sink_thread st
  /\ (camera_thread st' = CamExited
      \/ (camera_thread st' = CamNotStarted /\ camera_thread st = CamNotStarted)).
Proof.
  intros Hrun. cbn zeta.
  pose proof (worker_step_flags params CameraDraw st Hrun) as F.
  unfold flags in F. injection F as Fr _. cbn [worker_step] in Fr.
  rewrite Hrun in Fr.
  assert (V : sink_thread (camera_thread_draw params st) = sink_thread st
              /\ camera_thread (camera_thread_draw params st)
                 = match camera_thread st with
                   | CamGot _ => CamAtLoop
                   | t => t
                   end).
  { unfold camera_thread_draw.
    destruct (camera_thread st) eqn:E; simpl; rewrite ?E; auto.
    pose proof (draw_image_view params img st) as W.
    unfold sink_view in W. injection W as _ _ Wt.
    destruct (_draw_image params img st); cbn [result_state] in Wt; auto. }
  destruct V as [Vs Vc].
  unfold camera_thread_get. rewrite Fr, Vc.
  destruct (camera_thread st); simpl; rewrite ?Vs; auto.
Qed.
End Cleanup.

Example cleanup_before_start :
  cleanup params4 (init true tt) = CleanupAttributeError.
Proof. reflexivity. Qed.

(** X13.  [cleanup] before any [start] raises [AttributeError] when camera
    output is enabled, the future of the camera worker being assigned by
    [start] only, and returns at once when it is not.  After a [start] it
    is suspended; and once the flag is down, it returns as soon as each
    started worker has finished the item in its hands and looked at the
    flag. *)
Theorem X13_cleanup_waits_for_workers {Dev} {collab : Collaborators Dev}
    {PILImage} {imaging : Imaging PILImage} params (st : State Dev) :
  (camera_thread st = CamNotStarted -> sink_thread st = SinkNotStarted ->
   cleanup params st = if camera_out_enabled params
                       then CleanupAttributeError else CleanupReturned)
  /\ (running st = false -> cleanup params (start params st) = CleanupWaiting)
  /\ (running st = false ->
      (camera_out_enabled params = true -> camera_thread st <> CamNotStarted) ->
      cleanup params
        (run_workers params [SinkHandle; SinkGet; CameraDraw; CameraGet] st)
      = CleanupReturned).
Proof.
  split; [| split].
  - intros Hc Hs. unfold cleanup. rewrite Hc, Hs.
    now destruct (camera_out_enabled params).
  - intros Hrun. unfold cleanup, start, spawn_sink, spawn_camera.
    rewrite Hrun.
    destruct st as [? ? ? ? ? ? ? ? sink ? cam ? ?]; simpl.
    destruct (camera_out_enabled params), cam, sink; reflexivity.
  - intros Hrun Hstarted.
    change (run_workers params [SinkHandle; SinkGet; CameraDraw; CameraGet] st)
      with (camera_thread_get params
              (camera_thread_draw params
                 (sink_thread_get (sink_thread_handle params st)))).
    destruct (sink_leaves params st Hrun) as (Hr & Hcam & Hsink).
    destruct (camera_leaves params _ Hr) as (Hs' & Hcam').
    unfold cleanup. rewrite Hs'.
    assert (Hsink' :
              match sink_thread (sink_thread_get (sink_thread_handle params st)) with
              | SinkNotStarted | SinkExited => CleanupReturned
              | _ => CleanupWaiting
              end = CleanupReturned).
    { destruct Hsink as [-> | [-> _]]; reflexivity. }
    rewrite Hsink'.
    destruct (camera_out_enabled params); [| reflexivity].
    destruct Hcam' as [-> | [_ Hn]]; [reflexivity |].
    rewrite Hcam in Hn. now destruct (Hstarted eq_refl).
Qed.

Lemma X13_cleanup_waits_for_workers_witness :
  let st := state_of (process_frame params4 CancelFrame DOWNSTREAM
                        (sink_thread_get
                           (sink_put (OtherFrame "a")
                              (start params4 (init true tt))))) in
  running st = false
  /\ sink_thread st = SinkGot (OtherFrame "a")
  /\ cleanup params4 st = CleanupWaiting
  /\ cleanup params4
       (run_workers (collab := base_collaborators) (imaging := toy_imaging)
          params4 [SinkHandle; SinkGet; CameraDraw; CameraGet] st)
     = CleanupReturned.
Proof.
  cbn zeta. do 3 (split; [reflexivity |]).
  apply (proj2 (proj2
    (X13_cleanup_waits_for_workers (collab := base_collaborators)
       (imaging := toy_imaging) params4
       (state_of (process_frame params4 CancelFrame DOWNSTREAM
                    (sink_thread_get
                       (sink_put (OtherFrame "a")
                          (start params4 (init true tt)))))))));
    [reflexivity |].
  intros _. simpl. discriminate.
Defined.

(** ** Failures of the collaborators *)

Example failed_message_is_logged :
  trace (sink_thread_handle (collab := failing_device) params4
           (holding params4 (TransportMessageFrame "m") []))
  = [EvSendMessage (TransportMessageFrame "m");
     EvLogError "Error processing sink queue"].
Proof. reflexivity. Qed.

(** X14.  When [send_message] or [send_metrics] raises, the sink worker
    logs the error after the call and is back at its loop; the buffer, the
    queues, the flags and the device are as before, so that the worker
    goes on with the next frame. *)
Theorem X14_failed_send_is_contained {Dev} {collab : Collaborators Dev}
    params (st : State Dev) f :
  sink_thread st = SinkGot f ->
  is_interrupted st = false ->
  (exists m, f = TransportMessageFrame m /\ send_message f (dev st) = None)
  \/ (exists m, f = MetricsFrame m /\ send_metrics f (dev st) = None) ->
  sink_thread_handle params st
  = set_sink_thread SinkAtLoop
      (emit [EvLogError "Error processing sink queue"]
         (emit [match f with
                | MetricsFrame _ => EvSendMetrics f
                | _ => EvSendMessage f
                end] st)).
Proof.
  intros Hgot Hint Hfail.
  unfold sink_thread_handle, sink_dispatch, call. rewrite Hgot, Hint.
  destruct Hfail as [(m & -> & Hsend) | (m & -> & Hsend)];
    simpl; now rewrite Hsend.
Qed.

Lemma X14_failed_send_is_contained_witness :
  let st := holding params4 (MetricsFrame "ttfb") [Byte.x01] in
  send_metrics (Collaborators := failing_device) (MetricsFrame "ttfb") (dev st)
  = None
  /\ buffer (sink_thread_handle (collab := failing_device) params4 st)
     = [Byte.x01]
  /\ sink_thread (sink_thread_handle (collab := failing_device) params4 st)
     = SinkAtLoop.
Proof.
  cbn zeta. split; [reflexivity |].
  rewrite (X14_failed_send_is_contained (collab := failing_device) params4
             (holding params4 (MetricsFrame "ttfb") [Byte.x01])
             eq_refl eq_refl
             (or_intror (ex_intro _ "ttfb" (conj eq_refl eq_refl)))).
  split; reflexivity.
Defined.

(** ** The camera worker *)

Lemma drawn_app t1 t2 : drawn (t1 ++ t2) = drawn t1 ++ drawn t2.
Proof.
  induction t1 as [| e t1 IH]; simpl; [reflexivity |].
  destruct e; simpl; rewrite ?IH; reflexivity.
Qed.

Lemma camera_rounds_snoc n :
  camera_rounds (S n) = camera_rounds n ++ [CameraGet; CameraDraw].
Proof.
  unfold camera_rounds.
  induction n as [| n IH]; [reflexivity |].
  change (concat (repeat [CameraGet; CameraDraw] (S (S n))))
    with ([CameraGet; CameraDraw]
          ++ concat (repeat [CameraGet; CameraDraw] (S n))).
  rewrite IH at 1. now rewrite app_assoc.
Qed.

Lemma cycle_step n k :
  0 < n -> (if S (k mod n) <? n then S (k mod n) else 0) = S k mod n.
Proof.
  intros Hn.
  pose proof (Nat.div_mod_eq k n) as E.
  pose proof (Nat.mod_upper_bound k n ltac:(lia)) as B.
  destruct (Nat.ltb_spec (S (k mod n)) n) as [Hlt | Hge].
  - apply (Nat.mod_unique (S k) n (k / n)); lia.
  - apply (Nat.mod_unique (S k) n (S (k / n))); nia.
Qed.

Section CameraWorker.
Context {Dev : Type} {collab : Collaborators Dev}.
Context {PILImage : Type} {imaging : Imaging PILImage}.
Variable params : TransportParams.
Implicit Type st : State Dev.

Let desired_size := (camera_out_width params, camera_out_height params).

(** The camera worker with an image of the configured size in hand: the
    image is handed to the camera write, and the worker is back at its
    loop, whether the write raises or not. *)
Lemma draw_configured_size st img :
  camera_thread st = CamGot img ->
  size img = desired_size ->
  let st' := camera_thread_draw params st in
  drawn (trace st') = drawn (trace st) ++ [img]
  /\ running st' = running st
  /\ camera_thread st' = CamAtLoop
  /\ camera_images st' = camera_images st
  /\ camera_out_queue st' = camera_out_queue st.
Proof.
  intros Hgot Hsize. cbn zeta.
  unfold camera_thread_draw, _draw_image. rewrite Hgot.
  destruct (size_eqb_spec (size img)
              (camera_out_width params, camera_out_height params))
    as [_ | Hne]; [| now destruct Hne].
  unfold call. cbn zeta.
  destruct (write_frame_to_camera _ _); simpl;
    rewrite ?drawn_app; simpl; rewrite ?app_nil_r; auto.
Qed.

Lemma cycle_rounds images dflt st :
  camera_out_is_live params = false ->
  running st = true ->
  camera_thread st = CamAtLoop ->
  camera_images st = Some (mkCycle images 0) ->
  images <> [] ->
  Forall (fun img => size img = desired_size) images ->
  forall k,
    let st' := run_workers params (camera_rounds k) st in
    running st' = true
    /\ camera_thread st' = CamAtLoop
    /\ camera_images st' = Some (mkCycle images (k mod length images))
    /\ drawn (trace st')
       = drawn (trace st)
         ++ map (fun i => nth (i mod length images) images dflt) (seq 0 k).
Proof.
  intros Hlive Hrun Hloop Hcycle Hne Hsizes.
  assert (Hn : 0 < length images) by (destruct images; simpl; [easy | lia]).
  induction k as [| k IH]; cbn zeta.
  - simpl. rewrite Nat.Div0.mod_0_l, app_nil_r. auto.
  - destruct IH as (Hr & Ht & Hc & Hd).
    rewrite camera_rounds_snoc, run_workers_app.
    set (s := run_workers params (camera_rounds k) st) in *.
    assert (Hk : k mod length images < length images)
      by (apply Nat.mod_upper_bound; lia).
    assert (Hget : camera_thread_get params s
                   = set_camera_thread
                       (CamGot (nth (k mod length images) images dflt))
                       (set_camera_images
                          (Some (mkCycle images (S k mod length images))) s)).
    { unfold camera_thread_get, cycle_next.
      rewrite Ht, Hr, Hlive, Hc. cbn [saved pos].
      rewrite (nth_error_nth' images dflt Hk).
      now rewrite cycle_step by exact Hn. }
    change (run_workers params [CameraGet; CameraDraw] s)
      with (camera_thread_draw params (camera_thread_get params s)).
    rewrite Hget.
    destruct (draw_configured_size
                (set_camera_thread
                   (CamGot (nth (k mod length images) images dflt))
                   (set_camera_images
                      (Some (mkCycle images (S k mod length images))) s))
                (img := nth (k mod length images) images dflt) eq_refl)
      as (Hd' & Hr' & Ht' & Hc' & _).
    { rewrite Forall_forall in Hsizes. apply Hsizes, nth_In. exact Hk. }
    cbn [trace running camera_images set_camera_thread set_camera_images]
      in Hd', Hr', Hc'.
    split; [congruence | split; [exact Ht' | split; [exact Hc' |]]].
    rewrite Hd', Hd, seq_S, map_app, <- app_assoc. reflexivity.
Qed.

Lemma live_rounds images : forall st,
  camera_out_is_live params = true ->
  running st = true ->
  camera_thread st = CamAtLoop ->
  camera_out_queue st = images ->
  Forall (fun img => size img = desired_size) images ->
  let st' := run_workers params (camera_rounds (length images)) st in
  drawn (trace st') = drawn (trace st) ++ images
  /\ camera_out_queue st' = []
  /\ camera_thread st' = CamAtLoop.
Proof.
  induction images as [| img images IH];
    intros st Hlive Hrun Hloop Hq Hsizes; cbn zeta.
  - simpl. now rewrite app_nil_r.
  - inversion Hsizes as [| ? ? Hsize Hrest]; subst.
    change (run_workers params (camera_rounds (length (img :: images))) st)
      with (run_workers params (camera_rounds (length images))
              (camera_thread_draw params (camera_thread_get params st))).
    assert (Hget : camera_thread_get params st
                   = set_camera_thread (CamGot img)
                       (set_camera_out_queue images st)).
    { unfold camera_thread_get. now rewrite Hloop, Hrun, Hlive, Hq. }
    rewrite Hget.
    destruct (draw_configured_size
                (set_camera_thread (CamGot img) (set_camera_out_queue images st))
                (img := img) eq_refl Hsize)
      as (Hd & Hr & Ht & _ & Hq').
    cbn [trace running camera_out_queue set_camera_thread set_camera_out_queue]
      in Hd, Hr, Hq'.
    destruct (IH _ Hlive (eq_trans Hr Hrun) Ht Hq' Hrest) as (Hd' & Hq'' & Ht').
    split; [| split; assumption].
    rewrite Hd', Hd, <- app_assoc. reflexivity.
Qed.
End CameraWorker.

Example three_images_cycle :
  let a := mkImageRawFrame [Byte.x01] (2, 2) (Some "RGB") in
  let b := mkImageRawFrame [Byte.x02] (2, 2) (Some "RGB") in
  drawn (trace (run_workers (collab := base_collaborators)
                  (imaging := toy_imaging) params4 (camera_rounds 3)
                  (_set_camera_images [a; b] (start params4 (init true tt)))))
  = [a; b; a].
Proof. reflexivity. Qed.

(** X15.  Camera not live, running, with a sprite list that is not empty
    and whose images have the configured size: after k turns of the camera
    worker the images handed to the camera write are the first k of the
    list repeated without end, in the order of the list, whether the writes
    return or raise an [Exception]. *)
Theorem X15_sprite_images_cycle_in_order {Dev} {collab : Collaborators Dev}
    {PILImage} {imaging : Imaging PILImage}
    params (st : State Dev) images dflt k :
  camera_out_is_live params = false ->
  running st = true ->
  camera_thread st = CamAtLoop ->
  images <> [] ->
  Forall (fun img => size img
                     = (camera_out_width params, camera_out_height params))
         images ->
  drawn (trace (run_workers params (camera_rounds k)
                  (_set_camera_images images st)))
  = drawn (trace st)
    ++ map (fun i => nth (i mod length images) images dflt) (seq 0 k).
Proof.
  intros Hlive Hrun Hloop Hne Hsizes.
  exact (proj2 (proj2 (proj2
    (cycle_rounds params dflt (_set_camera_images images st)
       Hlive Hrun Hloop eq_refl Hne Hsizes k)))).
Qed.

Lemma X15_sprite_images_cycle_in_order_witness :
  let a := mkImageRawFrame [Byte.x01] (2, 2) (Some "RGB") in
  let b := mkImageRawFrame [Byte.x02] (2, 2) (Some "RGB") in
  drawn (trace (run_workers (collab := failing_device)
                  (imaging := toy_imaging) params4 (camera_rounds 3)
                  (_set_camera_images [a; b] (start params4 (init true tt)))))
  = [a; b; a].
Proof.
  cbn zeta.
  assert (Hne : [mkImageRawFrame [Byte.x01] (2, 2) (Some "RGB");
                 mkImageRawFrame [Byte.x02] (2, 2) (Some "RGB")] <> [])
    by discriminate.
  assert (Hsizes : Forall (fun img => size img
                             = (camera_out_width params4,
                                camera_out_height params4))
                     [mkImageRawFrame [Byte.x01] (2, 2) (Some "RGB");
                      mkImageRawFrame [Byte.x02] (2, 2) (Some "RGB")])
    by (repeat constructor).
  exact (X15_sprite_images_cycle_in_order (collab := failing_device)
           (imaging := toy_imaging) params4 (start params4 (init true tt))
           (mkImageRawFrame [] (0, 0) None) 3
           eq_refl eq_refl eq_refl Hne Hsizes).
Defined.

(** X16.  An empty sprite list: the cycle over it counts as present, its
    [next] raises, and every turn of the camera worker ends in the handler
    that logs the error; nothing is drawn and nothing else changes. *)
Theorem X16_empty_sprite_list_only_logs {Dev} {collab : Collaborators Dev}
    {PILImage} {imaging : Imaging PILImage} params (st : State Dev) k :
  camera_out_is_live params = false ->
  running st = true ->
  camera_thread st = CamAtLoop ->
  run_workers params (camera_rounds k) (_set_camera_images [] st)
  = emit (repeat (EvLogError "Error writing to camera") k)
         (_set_camera_images [] st).
Proof.
  intros Hlive Hrun Hloop.
  assert (Hgen : forall s : State Dev,
             running s = true -> camera_thread s = CamAtLoop ->
             camera_images s = Some (mkCycle [] 0) ->
             run_workers params (camera_rounds k) s
             = emit (repeat (EvLogError "Error writing to camera") k) s).
  { induction k as [| k IH]; intros s Hr Ht Hc.
    - destruct s; unfold emit; simpl. now rewrite app_nil_r.
    - change (run_workers params (camera_rounds (S k)) s)
        with (run_workers params (camera_rounds k)
                (camera_thread_draw params (camera_thread_get params s))).
      assert (E : camera_thread_draw params (camera_thread_get params s)
                  = emit [EvLogError "Error writing to camera"] s).
      { unfold camera_thread_get. rewrite Ht, Hr, Hlive, Hc.
        unfold camera_thread_draw. simpl. now rewrite Ht. }
      rewrite E, IH by assumption.
      destruct s; unfold emit; simpl. now rewrite <- app_assoc. }
  now apply Hgen.
Qed.

Lemma X16_empty_sprite_list_only_logs_witness :
  trace (run_workers (collab := base_collaborators) (imaging := toy_imaging)
           params4 (camera_rounds 2)
           (_set_camera_images [] (start params4 (init true tt))))
  = [EvLogError "Error writing to camera"; EvLogError "Error writing to camera"].
Proof.
  exact (f_equal (@trace unit)
           (X16_empty_sprite_list_only_logs (collab := base_collaborators)
              (imaging := toy_imaging) params4 (start params4 (init true tt)) 2
              eq_refl eq_refl eq_refl)).
Defined.

(** X17.  Live camera, running: the images waiting in the camera queue,
    when they have the configured size, are handed to the camera write one
    by one in the order of the queue, each once, and the queue is empty
    afterwards. *)
Theorem X17_live_images_drawn_in_order {Dev} {collab : Collaborators Dev}
    {PILImage} {imaging : Imaging PILImage} params (st : State Dev) :
  camera_out_is_live params = true ->
  running st = true ->
  camera_thread st = CamAtLoop ->
  Forall (fun img => size img
                     = (camera_out_width params, camera_out_height params))
         (camera_out_queue st) ->
  let st' := run_workers params (camera_rounds (length (camera_out_queue st))) st in
  drawn (trace st') = drawn (trace st) ++ camera_out_queue st
  /\ camera_out_queue st' = [].
Proof.
  intros Hlive Hrun Hloop Hsizes. cbn zeta.
  destruct (live_rounds params st Hlive Hrun Hloop eq_refl Hsizes)
    as (Hd & Hq & _).
  split; assumption.
Qed.

Lemma X17_live_images_drawn_in_order_witness :
  let a := mkImageRawFrame [Byte.x01] (2, 2) (Some "RGB") in
  let b := mkImageRawFrame [Byte.x02] (2, 2) (Some "RGB") in
  let st := _set_camera_image params_live b
              (_set_camera_image params_live a
                 (start params_live (init true tt))) in
  camera_out_queue st = [a; b]
  /\ drawn (trace (run_workers (collab := base_collaborators)
                     (imaging := toy_imaging) params_live (camera_rounds 2) st))
     = [a; b].
Proof.
  cbn zeta. split; [reflexivity |].
  assert (Hsizes : Forall (fun img => size img
                             = (camera_out_width params_live,
                                camera_out_height params_live))
                     [mkImageRawFrame [Byte.x01] (2, 2) (Some "RGB");
                      mkImageRawFrame [Byte.x02] (2, 2) (Some "RGB")])
    by (repeat constructor).
  exact (proj1
    (X17_live_images_drawn_in_order (collab := base_collaborators)
       (imaging := toy_imaging) params_live
       (_set_camera_image params_live
          (mkImageRawFrame [Byte.x02] (2, 2) (Some "RGB"))
          (_set_camera_image params_live
             (mkImageRawFrame [Byte.x01] (2, 2) (Some "RGB"))
             (start params_live (init true tt))))
       eq_refl eq_refl eq_refl Hsizes)).
Defined.

(** X18.  A failure while drawing stays in the camera worker: when the
    payload of an image of another size cannot be decoded, nothing is
    resized or written, the error is logged and the worker is back at its
    loop; when the camera write raises an [Exception] on an image of the
    configured size, the error is logged after the call.  Nothing else
    changes. *)
Theorem X18_failed_draw_is_contained {Dev} {collab : Collaborators Dev}
    {PILImage} {imaging : Imaging PILImage} params (st : State Dev) img :
  camera_thread st = CamGot img ->
  (size img <> (camera_out_width params, camera_out_height params) ->
   Image_frombytes (format img) (size img) (image img) = None ->
   camera_thread_draw params st
   = set_camera_thread CamAtLoop
       (emit [EvLogError "Error writing to camera"] st))
  /\ (size img = (camera_out_width params, camera_out_height params) ->
      write_frame_to_camera img (dev st) = None ->
      camera_thread_draw params st
      = set_camera_thread CamAtLoop
          (emit [EvLogError "Error writing to camera"]
             (emit [EvWriteCamera img] st))).
Proof.
  intros Hgot. unfold camera_thread_draw, _draw_image. rewrite Hgot. split.
  - intros Hsize Hdecode.
    destruct (size_eqb_spec (size img)
                (camera_out_width params, camera_out_height params));
      [contradiction |].
    now rewrite Hdecode.
  - intros Hsize Hwrite.
    destruct (size_eqb_spec (size img)
                (camera_out_width params, camera_out_height params));
      [| contradiction].
    unfold call. simpl. now rewrite Hwrite.
Qed.

Lemma X18_failed_draw_is_contained_witness :
  let img := mkImageRawFrame [Byte.x01] (1, 1) None in
  let st := set_camera_thread (CamGot img) (start params4 (init true tt)) in
  size img <> (camera_out_width params4, camera_out_height params4)
  /\ trace (camera_thread_draw (collab := base_collaborators)
              (imaging := toy_imaging) params4 st)
     = [EvLogError "Error writing to camera"].
Proof.
  cbn zeta.
  assert (Hsize : size (mkImageRawFrame [Byte.x01] (1, 1) None)
                  <> (camera_out_width params4, camera_out_height params4))
    by (simpl; congruence).
  split; [exact Hsize |].
  exact (f_equal (@trace unit)
           (proj1 (X18_failed_draw_is_contained (collab := base_collaborators)
                     (imaging := toy_imaging) params4
                     (set_camera_thread
                        (CamGot (mkImageRawFrame [Byte.x01] (1, 1) None))
                        (start params4 (init true tt)))
                     eq_refl)
                  Hsize eq_refl)).
Defined.

(** X19.  A still image sent to a running transport whose camera is
    enabled and not live, once the sink worker has handled it, is what the
    camera worker hands to the camera write at every turn from then on. *)
Theorem X19_still_image_is_repeated {Dev} {collab : Collaborators Dev}
    {PILImage} {imaging : Imaging PILImage} params (st : State Dev) img k :
  camera_out_enabled params = true ->
  camera_out_is_live params = false ->
  running st = true ->
  is_interrupted st = false ->
  sink_thread st = SinkAtLoop ->
  camera_thread st = CamAtLoop ->
  sink_queue st = [] ->
  size img = (camera_out_width params, camera_out_height params) ->
  drawn (trace (run_workers params (sink_rounds 1 ++ camera_rounds k)
                  (state_of (send_image params (inl img) st))))
  = drawn (trace st) ++ repeat img k.
Proof.
  intros Hcam Hlive Hrun Hint Hsink Hloop Hq Hsize.
  rewrite run_workers_app.
  assert (E : run_workers params (sink_rounds 1)
                (state_of (send_image params (inl img) st))
              = _set_camera_images [img] st).
  { unfold send_image, process_frame. cbn [is_CancelFrame is_EndFrame orb state_of].
    change (run_workers params (sink_rounds 1) (sink_put (ImageFrame img) st))
      with (sink_thread_handle params
              (sink_thread_get (sink_put (ImageFrame img) st))).
    unfold sink_thread_get, sink_thread_handle, sink_dispatch,
      _set_camera_image, _set_camera_images.
    simpl. rewrite Hsink, Hrun, Hq. simpl.
    rewrite Hint, Hcam, Hlive. simpl.
    destruct st; simpl in *; now subst. }
  rewrite E.
  destruct (cycle_rounds params img (_set_camera_images [img] st)
              Hlive Hrun Hloop eq_refl) with (k := k)
    as (_ & _ & _ & Hd).
  - discriminate.
  - repeat constructor. exact Hsize.
  - rewrite Hd. cbn [trace _set_camera_images set_camera_images]. f_equal.
    transitivity (map (fun _ : nat => img) (seq 0 k)).
    + apply map_ext. intros i. cbn [length]. now rewrite Nat.mod_1_r.
    + now rewrite map_const, length_seq.
Qed.

Lemma X19_still_image_is_repeated_witness :
  let img := mkImageRawFrame [Byte.x01] (2, 2) (Some "RGB") in
  drawn (trace (run_workers (collab := base_collaborators)
                  (imaging := toy_imaging) params4
                  (sink_rounds 1 ++ camera_rounds 3)
                  (state_of (send_image params4 (inl img)
                               (start params4 (init true tt))))))
  = [img; img; img].
Proof.
  exact (X19_still_image_is_repeated (collab := base_collaborators)
           (imaging := toy_imaging) params4 (start params4 (init true tt))
           (mkImageRawFrame [Byte.x01] (2, 2) (Some "RGB")) 3
           eq_refl eq_refl eq_refl eq_refl eq_refl eq_refl eq_refl eq_refl).
Defined.

Lemma X3_audio_fails_iff_no_chunk_size_witness :
  audio_out_sample_rate (mkTransportParams true 50 1 false false 2 2 10) < 100
  /\ process_frame (mkTransportParams true 50 1 false false 2 2 10)
       (AudioRawFrame bytes6 50 1) DOWNSTREAM (init true tt)
     = Failed ValueError (init true tt).
Proof.
  assert (H : audio_out_sample_rate
                (mkTransportParams true 50 1 false false 2 2 10) < 100)
    by (simpl; lia).
  split; [exact H |].
  exact (proj1 (X3_audio_fails_iff_no_chunk_size
                  (mkTransportParams true 50 1 false false 2 2 10)
                  (init true tt) bytes6 50 1 DOWNSTREAM)
               (or_introl H)).
Defined.
